(** * paths-filter-lite: the path-filter evaluation engine

    A shallow embedding of [.github/actions/paths-filter-lite/index.js]:
    the filter-definition parser ([parseFilters]), the glob compiler
    ([escapeRegexChar], [globToRegex], [compilePatterns]), the per-file
    evaluator ([fileMatchesFilter]), the aggregation loop of [main], the
    paginated request for the changed files ([getChangedFilesFromPR]) and
    the writing of the outputs ([setOutput]).

    JavaScript strings are sequences of UTF-16 code units; they are modelled
    as lists of [N].  Exceptions are modelled by the [completion] type. *)

From Stdlib Require Import List Arith NArith Bool Ascii String DecimalString Lia Permutation.
Import ListNotations.

Local Open Scope N_scope.
Local Open Scope list_scope.

(** ** JavaScript strings *)

Module JS.

(** A code unit and a string of code units. *)
Definition char := N.
Definition jsstring := list char.

(** Reading a literal: every character of the literal is one code unit. *)
Fixpoint str (s : String.string) : jsstring :=
  match s with
  | EmptyString => []
  | String a r => N_of_ascii a :: str r
  end.

Definition ch (a : ascii) : char := N_of_ascii a.

(** A text of several lines, each ended by a line feed. *)
Fixpoint text (ls : list String.string) : jsstring :=
  match ls with
  | [] => []
  | l :: r => str l ++ 10 :: text r
  end.

Fixpoint eqs (a b : jsstring) : bool :=
  match a, b with
  | [], [] => true
  | x :: a', y :: b' => (x =? y) && eqs a' b'
  | _, _ => false
  end.

(** [s.length === 0], for a string or an array *)
Definition isEmpty {A} (s : list A) : bool :=
  match s with
  | [] => true
  | _ :: _ => false
  end.

(** ECMAScript LineTerminator: LF, CR, LS, PS. *)
Definition isLineTerminator (c : char) : bool :=
  (c =? 10) || (c =? 13) || (c =? 8232) || (c =? 8233).

(** ECMAScript WhiteSpace together with LineTerminator: the characters
    removed by [String.prototype.trim] and matched by the class escape
    [\s]. *)
Definition isWhiteSpace (c : char) : bool :=
  (c =? 9) || (c =? 11) || (c =? 12) || (c =? 32) || (c =? 160)
  || (c =? 5760) || ((8192 <=? c) && (c <=? 8202))
  || (c =? 8239) || (c =? 8287) || (c =? 12288) || (c =? 65279)
  || isLineTerminator c.

Fixpoint trimStart (s : jsstring) : jsstring :=
  match s with
  | c :: r => if isWhiteSpace c then trimStart r else s
  | [] => []
  end.

Definition trimEnd (s : jsstring) : jsstring := rev (trimStart (rev s)).

(** [s.trim()] *)
Definition trim (s : jsstring) : jsstring := trimEnd (trimStart s).

(** [s.startsWith(c)] and [s.endsWith(c)] for a one-character [c]. *)
Definition startsWith (s : jsstring) (c : char) : bool :=
  match s with
  | x :: _ => x =? c
  | [] => false
  end.

Definition endsWith (s : jsstring) (c : char) : bool := startsWith (rev s) c.

(** [s.slice(1)] *)
Definition slice1 (s : jsstring) : jsstring := tl s.

(** [s.slice(1, -1)]: from index 1 up to, not including, the last index;
    empty when the string has fewer than two characters. *)
Definition slice1m1 (s : jsstring) : jsstring := removelast (tl s).

(** [s.split(/\r?\n/)]: the separator is a line feed, together with the
    carriage return just before it when there is one.  [cur] holds the
    piece being read, in reverse. *)
Fixpoint splitLinesFrom (cur : jsstring) (s : jsstring) : list jsstring :=
  match s with
  | [] => [rev cur]
  | c :: r =>
      if c =? 10 then rev cur :: splitLinesFrom [] r
      else
        match r with
        | n :: r' =>
            if (c =? 13) && (n =? 10) then rev cur :: splitLinesFrom [] r'
            else splitLinesFrom (c :: cur) r
        | [] => splitLinesFrom (c :: cur) r
        end
  end.

Definition splitLines (s : jsstring) : list jsstring := splitLinesFrom [] s.

(** Abrupt completions. *)
Inductive error :=
| Error (msg : String.string)
| TypeError (msg : String.string)
| SyntaxError (msg : String.string).

Inductive completion (A : Type) :=
| Normal (a : A)
| Throw (e : error).
Arguments Normal {A} a.
Arguments Throw {A} e.

Definition bind {A B} (m : completion A) (f : A -> completion B) : completion B :=
  match m with
  | Normal a => f a
  | Throw e => Throw e
  end.

Definition succeeds {A} (m : completion A) : bool :=
  match m with
  | Normal _ => true
  | Throw _ => false
  end.

End JS.

Import JS.

Notation "x <- m ;; k" := (bind m (fun x => k))
  (at level 61, m at next level, right associativity).

(** ** Regular expressions

    The fragment of ECMAScript regular expressions (no flags) that
    [globToRegex] can emit: the assertions [^] and [$], the atoms [.],
    [[^/]], an escaped punctuation character and a plain character, and
    the quantifier [*].  A source text outside this fragment, which
    includes every text the real constructor rejects, is not parsed. *)

Module RegExp.

Inductive atom :=
| AnyChar              (* .     *)
| NotSlash             (* [^/]  *)
| Lit (c : char).      (* a character, escaped or not *)

Inductive tok :=
| TStart | TEnd | TAtom (a : atom) | TStar.

Inductive node :=
| AssertStart          (* ^ *)
| AssertEnd            (* $ *)
| One (a : atom)
| Star (a : atom).

Definition regexp := list node.

Definition inClass (c : char) (cls : String.string) : bool :=
  existsb (N.eqb c) (str cls).

(** SyntaxCharacter of the ECMAScript pattern grammar. *)
Definition isSyntaxCharacter (c : char) : bool := inClass c "^$\.*+?()[]{}|".

(** The escapes read as the escaped character itself. *)
Definition isIdentityEscape (c : char) : bool :=
  isSyntaxCharacter c || (c =? ch "/") || (c =? ch "-").

Fixpoint lex (src : jsstring) : option (list tok) :=
  match src with
  | [] => Some []
  | c :: r =>
      if c =? ch "^" then option_map (cons TStart) (lex r)
      else if c =? ch "$" then option_map (cons TEnd) (lex r)
      else if c =? ch "." then option_map (cons (TAtom AnyChar)) (lex r)
      else if c =? ch "*" then option_map (cons TStar) (lex r)
      else if c =? ch "\" then
        match r with
        | e :: r' =>
            if isIdentityEscape e
            then option_map (cons (TAtom (Lit e))) (lex r')
            else None
        | [] => None
        end
      else if c =? ch "[" then
        match r with
        | c1 :: c2 :: c3 :: r' =>
            if (c1 =? ch "^") && (c2 =? ch "/") && (c3 =? ch "]")
            then option_map (cons (TAtom NotSlash)) (lex r')
            else None
        | _ => None
        end
      else if isSyntaxCharacter c then None
      else option_map (cons (TAtom (Lit c))) (lex r)
  end.

(** A [*] applies to the atom just before it; with no atom before it
    there is nothing to repeat. *)
Fixpoint quantify (ts : list tok) : option (list node) :=
  match ts with
  | [] => Some []
  | TStart :: r => option_map (cons AssertStart) (quantify r)
  | TEnd :: r => option_map (cons AssertEnd) (quantify r)
  | TStar :: _ => None
  | TAtom a :: r =>
      match r with
      | TStar :: r' => option_map (cons (Star a)) (quantify r')
      | _ => option_map (cons (One a)) (quantify r)
      end
  end.

Definition parse (src : jsstring) : option regexp :=
  match lex src with
  | Some ts => quantify ts
  | None => None
  end.

(** [new RegExp(src)] *)
Definition newRegExp (src : jsstring) : completion regexp :=
  match parse src with
  | Some r => Normal r
  | None => Throw (SyntaxError "Invalid regular expression")
  end.

(** Without the [s] flag a dot matches anything but a line terminator. *)
Definition accepts (a : atom) (c : char) : bool :=
  match a with
  | AnyChar => negb (isLineTerminator c)
  | NotSlash => negb (c =? ch "/")
  | Lit x => c =? x
  end.

(** [star a k b s]: the atom [a] repeated, then the continuation [k].
    [b] tells whether the position is the start of the input. *)
Fixpoint star (a : atom) (k : bool -> jsstring -> bool) (b : bool) (s : jsstring) : bool :=
  match s with
  | c :: s' => (accepts a c && star a k false s') || k b s
  | [] => k b s
  end.

(** Backtracking match of the nodes from one position of the input. *)
Fixpoint matchFrom (ns : regexp) : bool -> jsstring -> bool :=
  match ns with
  | [] => fun _ _ => true
  | n :: rest =>
      match n with
      | AssertStart => fun b s => b && matchFrom rest b s
      | AssertEnd => fun b s =>
          match s with
          | [] => matchFrom rest b s
          | _ :: _ => false
          end
      | One a => fun _ s =>
          match s with
          | c :: s' => accepts a c && matchFrom rest false s'
          | [] => false
          end
      | Star a => star a (matchFrom rest)
      end
  end.

(** The search tries every start position, from the first. *)
Fixpoint searchFrom (ns : regexp) (b : bool) (s : jsstring) : bool :=
  matchFrom ns b s ||
  match s with
  | _ :: r => searchFrom ns false r
  | [] => false
  end.

(** [rx.test(s)], for a regular expression without the [g] and [y] flags. *)
Definition test (rx : regexp) (s : jsstring) : bool := searchFrom rx true s.

End RegExp.

Import RegExp.

(** ** The glob compiler *)

(** [ch.replace(/[-/\\^$*+?.()|[\]{}]/g, '\\$&')] on a one-character string. *)
Definition escapeRegexChar (c : char) : jsstring :=
  if inClass c "-/\^$*+?.()|[]{}" then [ch "\"; c] else [c].

(** The text accumulated in [re] by the loop of [globToRegex]. *)
Fixpoint globBody (glob : jsstring) : jsstring :=
  match glob with
  | [] => []
  | c :: r =>
      if c =? ch "*" then
        match r with
        | next :: r' =>
            if next =? ch "*" then str ".*" ++ globBody r'
            else str "[^/]*" ++ globBody r
        | [] => str "[^/]*" ++ globBody r
        end
      else if c =? ch "?" then str "[^/]" ++ globBody r
      else escapeRegexChar c ++ globBody r
  end.

Definition globToRegex (glob : jsstring) : jsstring :=
  str "^" ++ globBody glob ++ str "$".

Record pattern := mkPattern { negative : bool; rx : regexp; raw : jsstring }.

Record compiled := mkCompiled { patterns : list pattern; hasPositive : bool }.

(** The function mapped over the raw patterns by [compilePatterns]. *)
Definition compilePattern (raw : jsstring) : completion pattern :=
  let s := trim raw in
  let negative := startsWith s (ch "!") in
  let s := if negative then trim (slice1 s) else s in
  rx <- newRegExp (globToRegex s) ;;
  Normal {| negative := negative; rx := rx; raw := raw |}.

Fixpoint mapM {A B} (f : A -> completion B) (l : list A) : completion (list B) :=
  match l with
  | [] => Normal []
  | a :: r => b <- f a ;; bs <- mapM f r ;; Normal (b :: bs)
  end.

Definition compilePatterns (patternsRaw : list jsstring) : completion compiled :=
  patterns <- mapM compilePattern patternsRaw ;;
  let hasPositive := existsb (fun p => negb (negative p)) patterns in
  Normal {| patterns := patterns; hasPositive := hasPositive |}.

(** ** The filter evaluator *)

Definition fileMatchesFilter (file : jsstring) (c : compiled) : bool :=
  let included := if hasPositive c then false else true in
  fold_left
    (fun included p =>
       if test (rx p) file
       then (if negative p then false else true)
       else included)
    (patterns c) included.

(** ** Objects used as maps

    [parseFilters] collects its result in an object literal [{}].  Its own
    properties are kept in creation order; every other property is looked
    up on [Object.prototype]. *)

Module Obj.

Definition object := list (jsstring * list jsstring).

(** The property names of [Object.prototype]; each holds a function, and
    [__proto__] holds the prototype object itself. *)
Definition objectPrototypeKeys : list jsstring :=
  map str
    [ "constructor"; "__defineGetter__"; "__defineSetter__"; "hasOwnProperty";
      "__lookupGetter__"; "__lookupSetter__"; "isPrototypeOf";
      "propertyIsEnumerable"; "toString"; "valueOf"; "__proto__";
      "toLocaleString" ]%string.

Inductive value :=
| Undefined
| Array (items : list jsstring)
| Inherited.            (* a function or object found on the prototype *)

Fixpoint getOwn (o : object) (k : jsstring) : option (list jsstring) :=
  match o with
  | [] => None
  | (k', v) :: r => if eqs k' k then Some v else getOwn r k
  end.

(** [o[k]] *)
Definition get (o : object) (k : jsstring) : value :=
  match getOwn o k with
  | Some v => Array v
  | None => if existsb (eqs k) objectPrototypeKeys then Inherited else Undefined
  end.

Definition truthy (v : value) : bool :=
  match v with
  | Undefined => false
  | Array _ | Inherited => true
  end.

(** [o[k] = []], used where [o[k]] is undefined: a new own property. *)
Definition setEmpty (o : object) (k : jsstring) : object := o ++ [(k, [])].

Fixpoint pushOwn (o : object) (k : jsstring) (x : jsstring) : object :=
  match o with
  | [] => []
  | (k', v) :: r =>
      if eqs k' k then (k', v ++ [x]) :: r else (k', v) :: pushOwn r k x
  end.

(** [o[k].push(x)] *)
Definition push (o : object) (k : jsstring) (x : jsstring) : completion object :=
  match get o k with
  | Array _ => Normal (pushOwn o k x)
  | Inherited => Throw (TypeError "result[current].push is not a function")
  | Undefined => Throw (TypeError "Cannot read properties of undefined (reading 'push')")
  end.

Definition isDigit (c : char) : bool := (48 <=? c) && (c <=? 57).

Fixpoint decimal (acc : N) (s : jsstring) : option N :=
  match s with
  | [] => Some acc
  | c :: r => if isDigit c then decimal (10 * acc + (c - 48)) r else None
  end.

(** A property name is an array index when it is the canonical decimal
    text of an integer below 2^32 - 1. *)
Definition arrayIndex (k : jsstring) : option N :=
  match k with
  | [] => None
  | c :: r =>
      if (c =? ch "0") && negb (isEmpty r) then None
      else
        match decimal 0 k with
        | Some n => if n <=? 4294967294 then Some n else None
        | None => None
        end
  end.

Fixpoint insertKey (n : N) (k : jsstring) (l : list (N * jsstring)) : list (N * jsstring) :=
  match l with
  | [] => [(n, k)]
  | (m, k') :: r => if n <=? m then (n, k) :: l else (m, k') :: insertKey n k r
  end.

Fixpoint indexKeys (ks : list jsstring) : list (N * jsstring) :=
  match ks with
  | [] => []
  | k :: r =>
      match arrayIndex k with
      | Some n => insertKey n k (indexKeys r)
      | None => indexKeys r
      end
  end.

Definition otherKeys (ks : list jsstring) : list jsstring :=
  filter (fun k => match arrayIndex k with None => true | Some _ => false end) ks.

Definition ownKeys (o : object) : list jsstring := map fst o.

(** [Object.keys(o)]: the array indices in ascending order, then the other
    names in creation order. *)
Definition keys (o : object) : list jsstring :=
  map snd (indexKeys (ownKeys o)) ++ otherKeys (ownKeys o).

End Obj.

Import Obj.

(** ** The filter-definition parser *)

Definition isNameChar (c : char) : bool :=
  ((65 <=? c) && (c <=? 90)) || ((97 <=? c) && (c <=? 122))
  || ((48 <=? c) && (c <=? 57))
  || (c =? ch "_") || (c =? ch ".") || (c =? ch "-").

Fixpoint takeWhile (p : char -> bool) (s : jsstring) : jsstring :=
  match s with
  | c :: r => if p c then c :: takeWhile p r else []
  | [] => []
  end.

Fixpoint dropWhile (p : char -> bool) (s : jsstring) : jsstring :=
  match s with
  | c :: r => if p c then dropWhile p r else s
  | [] => []
  end.

(** [/^([A-Za-z0-9_.-]+):\s*$/.exec(line)], giving the first group.  The
    colon is not a name character, so the group is the longest run of name
    characters at the start of the line. *)
Definition filterMatch (line : jsstring) : option jsstring :=
  let name := takeWhile isNameChar line in
  match name, dropWhile isNameChar line with
  | _ :: _, c :: ws =>
      if (c =? ch ":") && forallb isWhiteSpace ws then Some name else None
  | _, _ => None
  end.

(** The lazy group [(.+?)] followed by [\s*$]: the shortest non-empty run
    of characters a dot accepts after which only white space is left. *)
Fixpoint lazyGroup (s : jsstring) : option jsstring :=
  match s with
  | [] => None
  | c :: r =>
      if isLineTerminator c then None
      else if forallb isWhiteSpace r then Some [c]
      else option_map (cons c) (lazyGroup r)
  end.

(** The greedy [\s*] before the group: it takes all the white space it
    can and gives one character back each time the rest fails. *)
Fixpoint afterDash (s : jsstring) : option jsstring :=
  match s with
  | c :: r =>
      if isWhiteSpace c then
        match afterDash r with
        | Some g => Some g
        | None => lazyGroup s
        end
      else lazyGroup s
  | [] => None
  end.

(** [/^-\s*(.+?)\s*$/.exec(line)], giving the first group. *)
Definition itemMatch (line : jsstring) : option jsstring :=
  match line with
  | c :: r => if c =? ch "-" then afterDash r else None
  | [] => None
  end.

(** One layer of matching quotes is removed. *)
Definition stripQuotes (pat : jsstring) : jsstring :=
  if (startsWith pat (ch "'") && endsWith pat (ch "'"))
     || (startsWith pat 34 && endsWith pat 34)
  then slice1m1 pat else pat.

Record parseState := mkState { result : object; current : option jsstring }.

Definition initialState : parseState := {| result := []; current := None |}.

(** The body of the loop over the lines. *)
Definition parseLine (st : parseState) (raw : jsstring) : completion parseState :=
  let line := trim raw in
  match line with
  | [] => Normal st
  | _ :: _ =>
      match filterMatch line with
      | Some name =>
          let result' :=
            if truthy (get (result st) name) then result st
            else setEmpty (result st) name in
          Normal {| result := result'; current := Some name |}
      | None =>
          match itemMatch line, current st with
          | Some g, Some cur =>
              if isEmpty cur then Normal st
              else
                let pat := stripQuotes (trim g) in
                result' <- push (result st) cur pat ;;
                Normal {| result := result'; current := current st |}
          | _, _ => Normal st
          end
      end
  end.

Fixpoint parseLines (st : parseState) (lines : list jsstring) : completion parseState :=
  match lines with
  | [] => Normal st
  | raw :: rest => st' <- parseLine st raw ;; parseLines st' rest
  end.

Definition parseFilters (yamlLike : jsstring) : completion object :=
  st <- parseLines initialState (splitLines yamlLike) ;;
  Normal (result st).

(** ** The aggregation loop of [main] *)

(** [getInput(name, required)], from the value of the environment
    variable, [None] when it is not set. *)
Definition getInput (val : option jsstring) (required : bool) : completion jsstring :=
  let missing :=
    match val with
    | None => true
    | Some v => isEmpty v || isEmpty (trim v)
    end in
  if required && missing
  then Throw (Error "Input required and not supplied: filters")
  else Normal (match val with Some v => v | None => [] end).

Definition output := (jsstring * jsstring)%type.

Definition boolText (b : bool) : jsstring := if b then str "true" else str "false".

(** [patternsRaw || []] followed by [.map]: an array is mapped over, a
    missing value gives no pattern, anything else has no [map]. *)
Definition patternsOf (v : value) : completion (list jsstring) :=
  match v with
  | Array items => Normal items
  | Undefined => Normal []
  | Inherited => Throw (TypeError "(patternsRaw || []).map is not a function")
  end.

(** The loop over the filter names: the outputs written, and the error
    that stopped the loop when there is one. *)
Fixpoint evaluateFilters (filtersMap : object) (changedFiles : list jsstring)
    (filterNames : list jsstring) : list output * option error :=
  match filterNames with
  | [] => ([], None)
  | name :: rest =>
      match (raws <- patternsOf (get filtersMap name) ;; compilePatterns raws) with
      | Throw e => ([], Some e)
      | Normal c =>
          let result := existsb (fun f => fileMatchesFilter f c) changedFiles in
          let (outs, e) := evaluateFilters filtersMap changedFiles rest in
          ((name, boolText result) :: outs, e)
      end
  end.

Definition noFilters : String.string :=
  ("No filters defined in input " ++ String (ascii_of_nat 34) "filters"
     ++ String (ascii_of_nat 34) ".")%string.

(** The body of [main], given the value of the input and the changed
    files the pull request reports. *)
Definition main (filters : option jsstring) (changedFiles : list jsstring)
  : list output * option error :=
  match (filtersInput <- getInput filters true ;; parseFilters filtersInput) with
  | Throw e => ([], Some e)
  | Normal filtersMap =>
      let filterNames := keys filtersMap in
      if isEmpty filterNames then ([], Some (Error noFilters))
      else evaluateFilters filtersMap changedFiles filterNames
  end.

(** [rx.test(file)] for the matcher compiled from one glob. *)
Definition globTest (glob file : jsstring) : completion bool :=
  rx <- newRegExp (globToRegex glob) ;; Normal (test rx file).

(** ** Specification-side definitions *)

(** The nodes the matcher of a glob is made of, between its two anchors. *)
Fixpoint globNodes (glob : jsstring) : list node :=
  match glob with
  | [] => []
  | c :: r =>
      if c =? ch "*" then
        match r with
        | next :: r' =>
            if next =? ch "*" then Star AnyChar :: globNodes r'
            else Star NotSlash :: globNodes r
        | [] => Star NotSlash :: globNodes r
        end
      else if c =? ch "?" then One NotSlash :: globNodes r
      else One (Lit c) :: globNodes r
  end.

(** The tokens a list of nodes is written with. *)
Fixpoint toksOf (ns : list node) : list tok :=
  match ns with
  | [] => []
  | AssertStart :: r => TStart :: toksOf r
  | AssertEnd :: r => TEnd :: toksOf r
  | One a :: r => TAtom a :: toksOf r
  | Star a :: r => TAtom a :: TStar :: toksOf r
  end.

(** A node that reads characters, as opposed to an assertion. *)
Definition consuming (n : node) : Prop :=
  match n with
  | One _ | Star _ => True
  | AssertStart | AssertEnd => False
  end.

(** [Matches ns s]: the whole of [s], from its first character to its
    last, is read by the nodes [ns]. *)
Inductive Matches : list node -> jsstring -> Prop :=
| M_nil : Matches [] []
| M_one a r c s :
    accepts a c = true -> Matches r s -> Matches (One a :: r) (c :: s)
| M_star_stop a r s :
    Matches r s -> Matches (Star a :: r) s
| M_star_more a r c s :
    accepts a c = true -> Matches (Star a :: r) s -> Matches (Star a :: r) (c :: s).

(** The negation flag the text of a raw pattern asks for. *)
Definition isNegated (raw : jsstring) : bool := startsWith (trim raw) (ch "!").

(** The verdict of the pattern list scanned from its last pattern back:
    the first pattern met that matches decides. *)
Definition lastMatch (file : jsstring) (ps : list pattern) : option pattern :=
  find (fun p => test (rx p) file) (rev ps).

(** The body of the loop of [fileMatchesFilter]. *)
Definition verdictStep (file : jsstring) (included : bool) (p : pattern) : bool :=
  if test (rx p) file then (if negative p then false else true) else included.

(** The own property names of the result are pairwise distinct. *)
Definition wellFormed (st : parseState) : Prop := NoDup (ownKeys (result st)).

(** A glob without wildcard: no [*] and no [?]. *)
Definition isLiteral (glob : jsstring) : bool :=
  forallb (fun c => negb (c =? ch "*") && negb (c =? ch "?")) glob.

(** A glob in which no [*] is followed by another [*]. *)
Fixpoint noDoubleStar (glob : jsstring) : bool :=
  match glob with
  | [] => true
  | c :: r =>
      match r with
      | next :: _ => negb ((c =? ch "*") && (next =? ch "*")) && noDoubleStar r
      | [] => true
      end
  end.

(** The number of separators of a path or of a glob. *)
Definition countSlash (s : jsstring) : nat :=
  List.length (filter (fun c => c =? ch "/") s).

(** What is left of [s] after the prefix [p], when [s] starts with [p]. *)
Fixpoint stripPrefix (p s : jsstring) : option jsstring :=
  match p, s with
  | [], _ => Some s
  | x :: p', y :: s' => if x =? y then stripPrefix p' s' else None
  | _ :: _, [] => None
  end.

(** What stands before the suffix [p] in [s], when [s] ends with [p]. *)
Definition stripSuffix (p s : jsstring) : option jsstring :=
  option_map (@rev char) (stripPrefix (rev p) (rev s)).

Definition noLineTerminator (s : jsstring) : bool :=
  forallb (fun c => negb (isLineTerminator c)) s.

Definition noSlash (s : jsstring) : bool :=
  forallb (fun c => negb (c =? ch "/")) s.

(** The matcher [new RegExp(globToRegex(glob))] is. *)
Definition globRegExp (glob : jsstring) : regexp :=
  AssertStart :: globNodes glob ++ [AssertEnd].

(** The separators a node reads for certain, and the nodes that read no
    other separator. *)
Definition nodeSlash (n : node) : nat :=
  match n with
  | One (Lit c) => if c =? ch "/" then 1 else 0
  | _ => 0
  end.

Definition shallow (n : node) : Prop :=
  match n with
  | One (Lit _) | One NotSlash | Star NotSlash => True
  | _ => False
  end.

Definition lit (c : char) : node := One (Lit c).

(** A name found on [Object.prototype]. *)
Definition protoName (name : jsstring) : bool :=
  existsb (eqs name) objectPrototypeKeys.

(** A filter name the parser can create: an identifier that is not a
    property of [Object.prototype]. *)
Definition validName (name : jsstring) : bool :=
  negb (isEmpty name) && forallb isNameChar name && negb (protoName name).

Definition validFilter (f : jsstring * list jsstring) : bool :=
  validName (fst f) && forallb noLineTerminator (snd f).

(** A filter written in the format the parser documents: the name and a
    colon, then one indented, quoted pattern for each line. *)
Definition renderPattern (pat : jsstring) : jsstring :=
  str "  - '" ++ pat ++ str "'".

Definition renderFilter (f : jsstring * list jsstring) : list jsstring :=
  (fst f ++ str ":") :: map renderPattern (snd f).

Definition render (o : object) : list jsstring := flat_map renderFilter o.

(** The lines joined into one text; each line is ended by a line feed,
    after a carriage return where [crlf] says so. *)
Fixpoint joinLines (lines : list (jsstring * bool)) : jsstring :=
  match lines with
  | [] => []
  | (l, crlf) :: r => l ++ (if crlf then [13; 10] else [10]) ++ joinLines r
  end.

Definition noLineBreak (l : jsstring) : bool :=
  forallb (fun c => negb (c =? 10) && negb (c =? 13)) l.

(** The current filter, when there is one, is a filter of the result. *)
Definition currentIsFilter (st : parseState) : Prop :=
  forall cur, current st = Some cur -> In cur (ownKeys (result st)).

Definition namesValid (o : object) : Prop :=
  Forall (fun k => validName k = true) (ownKeys o).

Definition withEnds (crlf : bool) (lines : list jsstring) : list (jsstring * bool) :=
  map (fun l => (l, crlf)) lines.

(** The text of a filter set, with one kind of line end. *)
Definition renderText (crlf : bool) (o : object) : jsstring :=
  joinLines (withEnds crlf (render o)).

(** The patterns of a filter, and what they compile to. *)
Definition rawsOf (o : object) (name : jsstring) : list jsstring :=
  match getOwn o name with
  | Some raws => raws
  | None => []
  end.

Definition compiledOf (raws : list jsstring) : compiled :=
  match compilePatterns raws with
  | Normal c => c
  | Throw _ => {| patterns := []; hasPositive := false |}
  end.

(** The ANY quantifier over the changed files, for one list of patterns. *)
Definition anyIncluded (raws : list jsstring) (changedFiles : list jsstring) : bool :=
  existsb (fun f => fileMatchesFilter f (compiledOf raws)) changedFiles.

Definition filterResult (changedFiles : list jsstring) (f : jsstring * list jsstring)
  : output :=
  (fst f, boolText (anyIncluded (snd f) changedFiles)).

Definition isArrayIndex (k : jsstring) : bool :=
  match arrayIndex k with
  | Some _ => true
  | None => false
  end.

(** ** The changed files of the pull request

    [getChangedFilesFromPR] reads the environment and the event payload
    and asks the REST API for the files of the pull request, page by
    page.  What lies outside the program is taken as given: the
    environment variables, the file system, and the answer [httpJson]
    resolves or rejects with for each request.  The loop has no bound
    of its own; [fuel] bounds the number of requests looked at, and
    [None] stands for a loop that is still running. *)

Module PR.

Record request := mkRequest {
  hostname : jsstring;
  path : jsstring;
  headers : list (jsstring * jsstring)
}.

(** What [httpJson] resolves with, as far as the loop looks at it: an
    array, or anything else.  An item of the array is [Some] file name
    when it is an object whose [filename] is a string. *)
Inductive json :=
| NotArray
| JArray (items : list (option jsstring)).

Record env := mkEnv {
  GITHUB_EVENT_NAME : option jsstring;
  GITHUB_EVENT_PATH : option jsstring;
  existsSync : jsstring -> bool;
  (** [JSON.parse(fs.readFileSync(path, 'utf8')).pull_request.number]:
      [Normal None] when the payload has no pull request or the pull
      request has no number. *)
  readPullRequest : jsstring -> completion (option N);
  GITHUB_REPOSITORY : option jsstring;
  GITHUB_TOKEN : option jsstring;
  GH_TOKEN : option jsstring;
  INPUT_GITHUB_TOKEN : option jsstring;
  INPUT_FILTERS : option jsstring;
  GITHUB_OUTPUT : option jsstring
}.

(** [v || ''] *)
Definition orEmpty (v : option jsstring) : jsstring :=
  match v with
  | Some s => s
  | None => []
  end.

(** [a || b], for values that are strings or undefined. *)
Definition orElse (a b : option jsstring) : option jsstring :=
  if isEmpty (orEmpty a) then b else a.

(** [s.split(sep)] for a one-character separator. *)
Fixpoint splitOnFrom (sep : char) (cur : jsstring) (s : jsstring) : list jsstring :=
  match s with
  | [] => [rev cur]
  | c :: r =>
      if c =? sep then rev cur :: splitOnFrom sep [] r
      else splitOnFrom sep (c :: cur) r
  end.

Definition splitOn (sep : char) (s : jsstring) : list jsstring :=
  splitOnFrom sep [] s.

(** A number in a template literal: decimal digits, as JavaScript writes
    the integers below 10^21. *)
Definition dec (n : N) : jsstring := str (NilZero.string_of_uint (N.to_uint n)).

Definition perPage : N := 100.

Definition pagePath (owner repo : jsstring) (number page : N) : jsstring :=
  str "/repos/" ++ owner ++ str "/" ++ repo ++ str "/pulls/" ++ dec number
  ++ str "/files?per_page=" ++ dec perPage ++ str "&page=" ++ dec page.

Definition pageRequest (owner repo : jsstring) (number : N) (token : jsstring)
    (page : N) : request :=
  {| hostname := str "api.github.com";
     path := pagePath owner repo number page;
     headers := [ (str "User-Agent", str "paths-filter-lite");
                  (str "Authorization", str "token " ++ token);
                  (str "Accept", str "application/vnd.github+json") ] |}.

(** The file names pushed for one page. *)
Fixpoint filenames (items : list (option jsstring)) : list jsstring :=
  match items with
  | [] => []
  | Some name :: r => name :: filenames r
  | None :: r => filenames r
  end.

(** The [while (true)] loop: the requests made, and how the loop ended. *)
Fixpoint fetchPages (httpJson : request -> completion json) (mk : N -> request)
    (fuel : nat) (page : N) (files : list jsstring)
    : list request * option (completion (list jsstring)) :=
  match fuel with
  | O => ([], None)
  | S fuel' =>
      let req := mk page in
      match httpJson req with
      | Throw e => ([req], Some (Throw e))
      | Normal NotArray => ([req], Some (Normal files))
      | Normal (JArray items) =>
          if isEmpty items then ([req], Some (Normal files))
          else
            let files' := files ++ filenames items in
            if N.of_nat (List.length items) <? perPage
            then ([req], Some (Normal files'))
            else
              let (reqs, r) := fetchPages httpJson mk fuel' (page + 1) files' in
              (req :: reqs, r)
      end
  end.

Definition isPullRequestEvent (e : env) : bool :=
  let eventName := orEmpty (GITHUB_EVENT_NAME e) in
  eqs eventName (str "pull_request") || eqs eventName (str "pull_request_target").

Definition token (e : env) : option jsstring :=
  orElse (orElse (GITHUB_TOKEN e) (GH_TOKEN e)) (INPUT_GITHUB_TOKEN e).

Definition owner (e : env) : jsstring :=
  nth 0 (splitOn (ch "/") (orEmpty (GITHUB_REPOSITORY e))) [].

Definition repo (e : env) : option jsstring :=
  nth_error (splitOn (ch "/") (orEmpty (GITHUB_REPOSITORY e))) 1.

Definition invalidRepository : String.string :=
  "GITHUB_REPOSITORY is not set or invalid".

Definition getChangedFilesFromPR (e : env) (httpJson : request -> completion json)
    (fuel : nat) : list request * option (completion (list jsstring)) :=
  if negb (isPullRequestEvent e) then ([], Some (Normal []))
  else
    match GITHUB_EVENT_PATH e with
    | None => ([], Some (Normal []))
    | Some eventPath =>
        if isEmpty eventPath || negb (existsSync e eventPath)
        then ([], Some (Normal []))
        else
          match readPullRequest e eventPath with
          | Throw err => ([], Some (Throw err))
          | Normal None => ([], Some (Normal []))
          | Normal (Some number) =>
              if number =? 0 then ([], Some (Normal []))
              else if isEmpty (owner e) || isEmpty (orEmpty (repo e))
              then ([], Some (Throw (Error invalidRepository)))
              else if isEmpty (orEmpty (token e)) then ([], Some (Normal []))
              else
                fetchPages httpJson
                  (pageRequest (owner e) (orEmpty (repo e)) number (orEmpty (token e)))
                  fuel 1 []
          end
    end.

(** What [setOutput] does: it appends a line to the file named by
    [GITHUB_OUTPUT], or writes the legacy command to the console. *)
Inductive effect :=
| AppendFile (file text : jsstring)
| ConsoleLog (text : jsstring).

Definition setOutput (e : env) (name value : jsstring) : effect :=
  match GITHUB_OUTPUT e with
  | Some (c :: p) => AppendFile (c :: p) (name ++ str "=" ++ value ++ [10])
  | _ => ConsoleLog (str "::set-output name=" ++ name ++ str "::" ++ value)
  end.

(** [main] with what it reads from outside: the filters are read and
    parsed first, the changed files are asked for next, and the filters
    are evaluated last. *)
Definition action (e : env) (httpJson : request -> completion json) (fuel : nat)
  : list request * option (list output * option error) :=
  match (filtersInput <- getInput (INPUT_FILTERS e) true ;; parseFilters filtersInput) with
  | Throw err => ([], Some ([], Some err))
  | Normal filtersMap =>
      let filterNames := keys filtersMap in
      if isEmpty filterNames then ([], Some ([], Some (Error noFilters)))
      else
        match getChangedFilesFromPR e httpJson fuel with
        | (reqs, None) => (reqs, None)
        | (reqs, Some (Throw err)) => (reqs, Some ([], Some err))
        | (reqs, Some (Normal changedFiles)) =>
            (reqs, Some (evaluateFilters filtersMap changedFiles filterNames))
        end
  end.

(** The calls of [setOutput] for the outputs of a run. *)
Definition outputEffects (e : env) (outs : list output) : list effect :=
  map (fun o => setOutput e (fst o) (snd o)) outs.

(** The text a list of effects appends to one file. *)
Fixpoint appended (file : jsstring) (effects : list effect) : jsstring :=
  match effects with
  | [] => []
  | AppendFile f t :: r => if eqs f file then t ++ appended file r else appended file r
  | ConsoleLog _ :: r => appended file r
  end.

(** The pages [1 .. n]. *)
Definition pagesUpTo (n : nat) : list N := map N.of_nat (seq 1 n).

End PR.

Import PR.

(** An answer that ends the loop: a rejection, something that is no
    array, or an array shorter than a full page. *)
Definition isFinal (answer : completion json) : bool :=
  match answer with
  | Throw _ => true
  | Normal NotArray => true
  | Normal (JArray items) => N.of_nat (List.length items) <? perPage
  end.

(** How the loop ends on such an answer, with the files pushed so far. *)
Definition finish (files : list jsstring) (answer : completion json)
  : completion (list jsstring) :=
  match answer with
  | Throw e => Throw e
  | Normal NotArray => Normal files
  | Normal (JArray items) => Normal (files ++ filenames items)
  end.

(** The text before the first [=] of a line. *)
Definition beforeEquals (line : jsstring) : jsstring :=
  takeWhile (fun c => negb (c =? ch "=")) line.

Definition outputLine (o : output) : jsstring := fst o ++ str "=" ++ snd o.

(** A run outside a pull request: a scheduled run with the filter [docs]. *)
Definition scheduledRun : env :=
  mkEnv (Some (str "schedule")) None (fun _ => false)
        (fun _ => Throw (Error "ENOENT")) (Some (str "o/r")) (Some (str "t")) None None
        (Some (str "docs:" ++ [10] ++ str "  - 'docs/**'")) (Some (str "/tmp/out")).

(** A pull request run with a token and the filter [docs]. *)
Definition pullRequestRun (filters : option jsstring) : env :=
  mkEnv (Some (str "pull_request")) (Some (str "/event.json")) (fun _ => true)
        (fun _ => Normal (Some 7)) (Some (str "o/r")) (Some (str "t")) None None
        filters (Some (str "/tmp/out")).

(** A pattern that can be written without quotes: not empty, on one
    line, with no white space at either end and not itself wrapped in
    quotes. *)
Definition plainPattern (pat : jsstring) : bool :=
  negb (isEmpty pat) && noLineTerminator pat
  && negb (isWhiteSpace (hd 32 pat)) && negb (isWhiteSpace (last pat 32))
  && negb (startsWith pat (ch "'") && endsWith pat (ch "'"))
  && negb (startsWith pat 34 && endsWith pat 34).

(** The push of a pattern line, for the pattern [pat]. *)
Definition pushPattern (st : parseState) (pat : jsstring) : completion parseState :=
  match current st with
  | Some cur =>
      if isEmpty cur then Normal st
      else
        result' <- push (result st) cur pat ;;
        Normal {| result := result'; current := current st |}
  | None => Normal st
  end.

(** ** Strings and completions *)

Lemma eqs_eq (a b : jsstring) : eqs a b = true <-> a = b.
Proof.
  revert b; induction a as [|x a IH]; intros [|y b]; simpl; split;
    try congruence; try reflexivity.
  - intros H. apply andb_true_iff in H as [Hx Hr].
    apply N.eqb_eq in Hx. apply IH in Hr. congruence.
  - intros [= -> ->]. rewrite N.eqb_refl. simpl. now apply IH.
Qed.

Lemma eqs_refl (a : jsstring) : eqs a a = true.
Proof. now apply eqs_eq. Qed.

Lemma eqs_neq (a b : jsstring) : eqs a b = false <-> a <> b.
Proof.
  rewrite <- eqs_eq. destruct (eqs a b); split; congruence.
Qed.

(** ** The regular expression of a glob always parses *)

Lemma inClass_false c cls k :
  inClass c cls = false -> In k (str cls) -> (c =? k) = false.
Proof.
  unfold inClass. intros H Hin.
  destruct (c =? k) eqn:E; [|reflexivity].
  assert (existsb (N.eqb c) (str cls) = true) as Ht
    by (apply existsb_exists; eauto).
  congruence.
Qed.

Lemma inClass_true c cls :
  inClass c cls = true -> In c (str cls).
Proof.
  unfold inClass. intros H. apply existsb_exists in H as (k & Hin & E).
  apply N.eqb_eq in E. now subst.
Qed.

Lemma lex_escaped c rest :
  (c =? ch "*") = false ->
  lex (escapeRegexChar c ++ rest) = option_map (cons (TAtom (Lit c))) (lex rest).
Proof.
  intros Hstar. unfold escapeRegexChar.
  destruct (inClass c "-/\^$*+?.()|[]{}") eqn:E.
  - apply inClass_true in E. simpl in E.
    repeat (destruct E as [<- | E]; [ first [ reflexivity | discriminate ] | ]).
    destruct E.
  - assert (forall k, In k (str "-/\^$*+?.()|[]{}") -> (c =? k) = false) as Hk
      by (intros k; now apply inClass_false).
    simpl app. unfold lex; fold lex.
    unfold isSyntaxCharacter, inClass. simpl existsb.
    rewrite !Hk by (simpl; tauto). reflexivity.
Qed.

Lemma lex_globBody glob rest :
  lex (globBody glob ++ rest)
  = option_map (app (toksOf (globNodes glob))) (lex rest).
Proof.
  remember (List.length glob) as n eqn:Hn.
  revert glob Hn rest.
  induction n as [n IH] using lt_wf_ind. intros glob Hn rest.
  assert (forall g, (List.length g < n)%nat ->
            lex (globBody g ++ rest)
            = option_map (app (toksOf (globNodes g))) (lex rest)) as IH'
    by (intros g Hg; now apply (IH (List.length g))).
  clear IH. subst n.
  destruct glob as [|c r]; simpl.
  - now destruct (lex rest).
  - destruct (c =? 42) eqn:Hstar.
    + destruct r as [|next r'].
      * simpl. now destruct (lex rest).
      * destruct (next =? 42) eqn:Hnext.
        -- change ([46; 42] ++ globBody r') with (46 :: 42 :: globBody r').
           simpl. rewrite IH' by (simpl; lia).
           now destruct (lex rest).
        -- change ([91; 94; 47; 93; 42] ++ globBody (next :: r'))
             with (91 :: 94 :: 47 :: 93 :: 42 :: globBody (next :: r')).
           cbn [app lex N.eqb Pos.eqb ch N_of_ascii N_of_digits andb].
           simpl N.add. simpl N.mul. cbn [N.eqb Pos.eqb andb].
           rewrite IH' by (simpl; lia).
           now destruct (lex rest).
    + destruct (c =? 63) eqn:Hq.
      * change ([91; 94; 47; 93] ++ globBody r)
          with (91 :: 94 :: 47 :: 93 :: globBody r).
        simpl. rewrite IH' by (simpl; lia).
        now destruct (lex rest).
      * rewrite <- app_assoc, lex_escaped by assumption.
        rewrite IH' by (simpl; lia).
        now destruct (lex rest).
Qed.

Lemma quantify_toksOf ns : quantify (toksOf ns) = Some ns.
Proof.
  induction ns as [|n r IH]; [reflexivity|].
  destruct n; simpl; try (rewrite IH; reflexivity).
  destruct (toksOf r) as [|t ts] eqn:E.
  - simpl in IH. injection IH as <-. reflexivity.
  - destruct t; try (rewrite IH; reflexivity).
    destruct r as [|[] ?]; discriminate.
Qed.

Lemma parse_globToRegex glob :
  parse (globToRegex glob) = Some (AssertStart :: globNodes glob ++ [AssertEnd]).
Proof.
  unfold parse, globToRegex.
  change (str "^" ++ globBody glob ++ str "$")
    with (ch "^" :: (globBody glob ++ str "$")).
  change (lex (ch "^" :: (globBody glob ++ str "$")))
    with (option_map (cons TStart) (lex (globBody glob ++ str "$"))).
  rewrite lex_globBody.
  change (lex (str "$")) with (Some [TEnd]). simpl option_map.
  change (TStart :: toksOf (globNodes glob) ++ [TEnd])
    with (toksOf [AssertStart] ++ toksOf (globNodes glob) ++ [TEnd]).
  replace (toksOf [AssertStart] ++ toksOf (globNodes glob) ++ [TEnd])
    with (toksOf (AssertStart :: globNodes glob ++ [AssertEnd])).
  - apply quantify_toksOf.
  - simpl. f_equal. induction (globNodes glob) as [|[] ? IHn]; simpl;
      rewrite ?IHn; reflexivity.
Qed.

Lemma newRegExp_globToRegex glob :
  newRegExp (globToRegex glob) = Normal (AssertStart :: globNodes glob ++ [AssertEnd]).
Proof. unfold newRegExp. now rewrite parse_globToRegex. Qed.

(** ** Anchoring: the matcher of a glob reads the whole path *)

Section Anchoring.

Variable body : list node.

Lemma search_after_start ns s : searchFrom (AssertStart :: ns) false s = false.
Proof. induction s as [|c s IH]; simpl; auto. Qed.

Lemma test_anchored ns s :
  test (AssertStart :: ns) s = matchFrom ns true s.
Proof.
  unfold test. destruct s as [|c s]; simpl.
  - now rewrite orb_false_r.
  - now rewrite search_after_start, orb_false_r.
Qed.

Lemma matches_star_inv a r s :
  Matches (Star a :: r) s ->
  Matches r s \/
  exists c s', s = c :: s' /\ accepts a c = true /\ Matches (Star a :: r) s'.
Proof. inversion 1; subst; [now left | right; eauto 6]. Qed.

Lemma matchFrom_end_iff :
  Forall consuming body ->
  forall b s, matchFrom (body ++ [AssertEnd]) b s = true <-> Matches body s.
Proof.
  induction 1 as [|n r Hn Hr IH].
  - intros b [|c s]; simpl; split; auto using M_nil; try discriminate.
    inversion 1.
  - destruct n as [| |a|a]; try contradiction.
    + (* one character *)
      intros b [|c s]; simpl.
      * split; [discriminate | inversion 1].
      * rewrite andb_true_iff, IH. split.
        -- intros [Ha Hm]. now constructor.
        -- inversion 1; subst; auto.
    + (* a repeated atom: by induction on the input *)
      intros b s. revert b.
      change (matchFrom ((Star a :: r) ++ [AssertEnd]))
        with (star a (matchFrom (r ++ [AssertEnd]))).
      induction s as [|c s IHs]; intros b; simpl.
      * rewrite IH. split; [apply M_star_stop|].
        intros Hm. apply matches_star_inv in Hm as [Hm | (c & s' & E & _)];
          [assumption | discriminate].
      * rewrite orb_true_iff, andb_true_iff, IHs, IH. split.
        -- intros [[Ha Hm] | Hm]; [now apply M_star_more | now apply M_star_stop].
        -- intros Hm. apply matches_star_inv in Hm as [Hm | (c' & s' & E & Ha & Hm)].
           ++ now right.
           ++ injection E as <- <-. now left.
Qed.

End Anchoring.

Lemma globNodes_consuming glob : Forall consuming (globNodes glob).
Proof.
  remember (List.length glob) as n eqn:Hn. revert glob Hn.
  induction n as [n IH] using lt_wf_ind. intros glob ->.
  assert (forall g, (List.length g < List.length glob)%nat ->
                    Forall consuming (globNodes g)) as IH'
    by (intros g Hg; now apply (IH (List.length g))).
  clear IH.
  destruct glob as [|c r]; [constructor|].
  unfold globNodes; fold globNodes.
  destruct (c =? ch "*").
  - destruct r as [|next r']; [repeat constructor|].
    destruct (next =? ch "*"); constructor; try exact I.
    + apply (IH' r'). simpl; lia.
    + apply (IH' (next :: r')). simpl; lia.
  - destruct (c =? ch "?"); constructor; try exact I; apply (IH' r); simpl; lia.
Qed.

Lemma globTest_spec glob path :
  exists b, globTest glob path = Normal b /\ (b = true <-> Matches (globNodes glob) path).
Proof.
  unfold globTest. rewrite newRegExp_globToRegex. simpl bind.
  eexists; split; [reflexivity|].
  rewrite test_anchored. apply matchFrom_end_iff, globNodes_consuming.
Qed.

(** ** Compilation is total *)

Lemma compilePattern_total r :
  exists p, compilePattern r = Normal p /\ negative p = isNegated r /\ raw p = r.
Proof.
  unfold compilePattern. rewrite newRegExp_globToRegex. simpl.
  eexists; split; [reflexivity|]. split; reflexivity.
Qed.

Lemma mapM_compilePattern raws :
  exists ps, mapM compilePattern raws = Normal ps
             /\ map negative ps = map isNegated raws /\ map raw ps = raws.
Proof.
  induction raws as [|r raws (ps & E & Hneg & Hraw)]; simpl.
  - exists []. auto.
  - destruct (compilePattern_total r) as (p & Ep & Hp & Hr).
    rewrite Ep. simpl. rewrite E. simpl.
    exists (p :: ps). simpl. repeat split; congruence.
Qed.

Lemma compilePatterns_spec raws :
  exists c, compilePatterns raws = Normal c
            /\ map negative (patterns c) = map isNegated raws
            /\ map raw (patterns c) = raws
            /\ hasPositive c = existsb (fun p => negb (negative p)) (patterns c).
Proof.
  unfold compilePatterns.
  destruct (mapM_compilePattern raws) as (ps & E & Hneg & Hraw).
  rewrite E. simpl. eexists; split; [reflexivity|]. simpl. auto.
Qed.

(** ** The evaluator *)

Lemma fileMatchesFilter_fold file c :
  fileMatchesFilter file c
  = fold_left (verdictStep file) (patterns c) (negb (hasPositive c)).
Proof. unfold fileMatchesFilter. now destruct (hasPositive c). Qed.

Lemma fold_verdict_last file ps init :
  fold_left (verdictStep file) ps init
  = match lastMatch file ps with
    | Some p => negb (negative p)
    | None => init
    end.
Proof.
  unfold lastMatch.
  induction ps as [|p ps IH] using rev_ind; [reflexivity|].
  rewrite fold_left_app, rev_app_distr. simpl.
  unfold verdictStep at 1. destruct (test (rx p) file).
  - now destruct (negative p).
  - exact IH.
Qed.

Lemma fold_verdict_no_match file ps init :
  (forall p, In p ps -> test (rx p) file = false) ->
  fold_left (verdictStep file) ps init = init.
Proof.
  revert init. induction ps as [|p ps IH]; intros init H; [reflexivity|].
  simpl. unfold verdictStep at 2. rewrite (H p) by now left.
  apply IH. intros q Hq. apply H. now right.
Qed.

(** The pattern [lastMatch] finds matches the file, and no pattern
    declared after it does. *)
Lemma lastMatch_spec file ps p :
  lastMatch file ps = Some p ->
  exists before after,
    ps = before ++ p :: after
    /\ test (rx p) file = true
    /\ forall q, In q after -> test (rx q) file = false.
Proof.
  unfold lastMatch.
  induction ps as [|q ps IH] using rev_ind; [discriminate|].
  rewrite rev_app_distr. simpl.
  destruct (test (rx q) file) eqn:E.
  - intros [= <-]. exists ps, []. split; [reflexivity|]. split; [assumption|].
    intros ? [].
  - intros H. destruct (IH H) as (before & after & -> & Hp & Hafter).
    exists before, (after ++ [q]). rewrite <- app_assoc. simpl.
    split; [reflexivity|]. split; [assumption|].
    intros x Hx. apply in_app_or in Hx as [Hx | [<- | []]]; auto.
Qed.

(** C1. Last match wins.  The verdict of [fileMatchesFilter] is the
    negation flip of the last pattern of the list whose matcher matches
    the path, and the default when none matches; a pattern added at the
    end of the list is always consulted and, when it matches, overrides
    whatever the patterns before it gave; with the patterns
    [*.txt], [!secret.txt] the path [secret.txt] is not included. *)
Theorem last_match_wins :
  (forall file c,
      fileMatchesFilter file c
      = match lastMatch file (patterns c) with
        | Some p => negb (negative p)
        | None => negb (hasPositive c)
        end)
  /\ (forall file ps p hp,
         fileMatchesFilter file {| patterns := ps ++ [p]; hasPositive := hp |}
         = if test (rx p) file then negb (negative p)
           else fileMatchesFilter file {| patterns := ps; hasPositive := hp |})
  /\ (c <- compilePatterns [str "*.txt"; str "!secret.txt"] ;;
      Normal (fileMatchesFilter (str "secret.txt") c)) = Normal false.
Proof.
  split; [|split].
  - intros file c. rewrite fileMatchesFilter_fold. apply fold_verdict_last.
  - intros file ps p hp. rewrite !fileMatchesFilter_fold. simpl.
    rewrite fold_left_app. simpl. unfold verdictStep at 1.
    destruct (test (rx p) file); [now destruct (negative p) | reflexivity].
  - vm_compute. reflexivity.
Qed.

(** C2. The default verdict.  When the path matches none of the compiled
    patterns, a list with at least one non-negated pattern gives false and
    a list of negated patterns only gives true. *)
Theorem default_verdict raws c file :
  compilePatterns raws = Normal c ->
  (forall p, In p (patterns c) -> test (rx p) file = false) ->
  (Exists (fun r => isNegated r = false) raws -> fileMatchesFilter file c = false)
  /\ (Forall (fun r => isNegated r = true) raws -> fileMatchesFilter file c = true).
Proof.
  intros Hc Hnone.
  destruct (compilePatterns_spec raws) as (c' & Hc' & Hneg & _ & Hpos).
  assert (c' = c) by congruence. subst c'.
  rewrite fileMatchesFilter_fold, fold_verdict_no_match by assumption.
  rewrite Hpos.
  assert (existsb (fun p => negb (negative p)) (patterns c)
          = existsb (fun r => negb (isNegated r)) raws) as ->.
  { clear -Hneg. revert raws Hneg.
    induction (patterns c) as [|p ps IH]; intros [|r raws]; simpl;
      try discriminate; [reflexivity|].
    intros [= Hp Hps]. now rewrite Hp, (IH raws). }
  split.
  - intros Hex. apply negb_false_iff, existsb_exists.
    apply Exists_exists in Hex as (r & Hin & Hr).
    exists r. split; [assumption|]. now rewrite Hr.
  - intros Hall. apply negb_true_iff.
    destruct (existsb _ raws) eqn:E; [|reflexivity].
    apply existsb_exists in E as (r & Hin & Hr).
    rewrite Forall_forall in Hall. rewrite (Hall r Hin) in Hr. discriminate.
Qed.

Lemma default_verdict_witness :
  (exists c, compilePatterns [str "*.txt"; str "!notes.txt"] = Normal c
             /\ fileMatchesFilter (str "README.md") c = false)
  /\ (exists c, compilePatterns [str "!*.txt"; str " !docs/**"] = Normal c
                /\ fileMatchesFilter (str "README.md") c = true).
Proof.
  split.
  - eexists. split; [vm_compute; reflexivity|].
    apply (default_verdict [str "*.txt"; str "!notes.txt"]).
    + vm_compute; reflexivity.
    + intros p [<- | [<- | []]]; vm_compute; reflexivity.
    + apply Exists_cons_hd. vm_compute; reflexivity.
  - eexists. split; [vm_compute; reflexivity|].
    apply (default_verdict [str "!*.txt"; str " !docs/**"]).
    + vm_compute; reflexivity.
    + intros p [<- | [<- | []]]; vm_compute; reflexivity.
    + repeat constructor.
Defined.

(** C3, as the code has it.  A filter with no pattern has no positive
    pattern, so every path is included, and the filter is satisfied by
    every changed-file set that is not empty. *)
Theorem empty_filter_includes_every_path :
  exists c,
    compilePatterns [] = Normal c
    /\ (forall file, fileMatchesFilter file c = true)
    /\ (forall changedFiles,
           existsb (fun f => fileMatchesFilter f c) changedFiles
           = negb (isEmpty changedFiles)).
Proof.
  eexists. split; [reflexivity|]. split; [reflexivity|].
  intros [|f fs]; reflexivity.
Qed.

(** C3, as the claim has it, fails: the filter [docs] with no pattern
    is reported true for the changed file [README.md]. *)
Lemma empty_filter_is_not_false :
  (c <- compilePatterns [] ;; Normal (fileMatchesFilter (str "README.md") c))
  = Normal true
  /\ main (Some (str "docs:")) [str "README.md"] = ([(str "docs", str "true")], None).
Proof. split; vm_compute; reflexivity. Qed.

(** C4, as the code has it.  [**] becomes [.*] and the [/] written after
    it stays a character of its own: [src/**/*.go] matches
    [src/a/b/c.go] and not the direct child [src/c.go]; [src/*.go] does
    not match [src/a/b.go]. *)
Theorem double_star_keeps_the_separator :
  globToRegex (str "src/**/*.go") = str "^src\/.*\/[^/]*\.go$"
  /\ globTest (str "src/**/*.go") (str "src/a/b/c.go") = Normal true
  /\ globTest (str "src/**/*.go") (str "src/c.go") = Normal false
  /\ globTest (str "src/*.go") (str "src/a/b.go") = Normal false.
Proof. repeat split; vm_compute; reflexivity. Qed.

(** C4, as the claim has it, fails on the direct child. *)
Lemma double_star_direct_child_not_matched :
  globTest (str "src/**/*.go") (str "src/c.go") <> Normal true.
Proof. vm_compute. discriminate. Qed.

(** C6, as the code has it.  Compiling never fails: every list of raw
    patterns compiles, each pattern is negated exactly when its trimmed
    text begins with [!], and the empty text and [!] alone give the
    matcher of the empty glob, which matches the empty path only. *)
Theorem compilePatterns_never_fails :
  (forall raws,
      exists c, compilePatterns raws = Normal c
                /\ map negative (patterns c) = map isNegated raws
                /\ map raw (patterns c) = raws)
  /\ (forall r,
         exists p, compilePattern r = Normal p
                   /\ negative p = startsWith (trim r) (ch "!"))
  /\ compilePattern (str "")
     = Normal {| negative := false; rx := [AssertStart; AssertEnd]; raw := str "" |}
  /\ compilePattern (str "!")
     = Normal {| negative := true; rx := [AssertStart; AssertEnd]; raw := str "!" |}
  /\ (forall path, test [AssertStart; AssertEnd] path = isEmpty path).
Proof.
  split; [|split; [|split; [|split]]].
  - intros raws. destruct (compilePatterns_spec raws) as (c & E & Hn & Hr & _).
    eauto.
  - intros r. destruct (compilePattern_total r) as (p & E & Hn & _). eauto.
  - reflexivity.
  - reflexivity.
  - intros path. rewrite test_anchored. now destruct path.
Qed.

(** C6, as the claim has it, fails: the empty text, white space alone
    and [!] alone all compile. *)
Lemma empty_pattern_compiles :
  succeeds (compilePatterns [str ""]) = true
  /\ succeeds (compilePatterns [str "   "]) = true
  /\ succeeds (compilePatterns [str "!"]) = true.
Proof. repeat split. Qed.

(** C8. [?] reads exactly one character that is not a separator, and the
    matcher of every glob is anchored at both ends: it is [^], nodes that
    read characters, then [$], and it accepts a path exactly when the
    nodes read the whole path. *)
Theorem question_mark_and_anchoring :
  globTest (str "file?.txt") (str "file1.txt") = Normal true
  /\ globTest (str "file?.txt") (str "file.txt") = Normal false
  /\ globTest (str "file?.txt") (str "file12.txt") = Normal false
  /\ globTest (str "file?.txt") (str "file/.txt") = Normal false
  /\ globTest (str "file?.txt") (str "dir/file1.txt") = Normal false
  /\ globTest (str "file?.txt") (str "file1.txt.bak") = Normal false
  /\ (forall glob,
         newRegExp (globToRegex glob)
         = Normal (AssertStart :: globNodes glob ++ [AssertEnd])
         /\ Forall consuming (globNodes glob)
         /\ forall path,
             test (AssertStart :: globNodes glob ++ [AssertEnd]) path = true
             <-> Matches (globNodes glob) path).
Proof.
  repeat (split; [vm_compute; reflexivity|]).
  intros glob. split; [apply newRegExp_globToRegex|].
  split; [apply globNodes_consuming|].
  intros path. rewrite test_anchored.
  apply matchFrom_end_iff, globNodes_consuming.
Qed.

(** ** Objects *)

Lemma getOwn_None o k : getOwn o k = None <-> ~ In k (ownKeys o).
Proof.
  induction o as [|[k' v] o IH]; simpl; [tauto|].
  destruct (eqs k' k) eqn:E.
  - apply eqs_eq in E. split; [discriminate | intros H; exfalso; auto].
  - apply eqs_neq in E. rewrite IH. tauto.
Qed.

Lemma getOwn_In o k : In k (ownKeys o) -> exists v, getOwn o k = Some v.
Proof.
  intros Hin. destruct (getOwn o k) eqn:E; [eauto|].
  now apply getOwn_None in E.
Qed.

Lemma ownKeys_pushOwn o k x : ownKeys (pushOwn o k x) = ownKeys o.
Proof.
  unfold ownKeys. induction o as [|[k' v] o IH]; simpl; [reflexivity|].
  destruct (eqs k' k); simpl; congruence.
Qed.

Lemma getOwn_pushOwn o k x v :
  getOwn o k = Some v -> getOwn (pushOwn o k x) k = Some (v ++ [x]).
Proof.
  induction o as [|[k' w] o IH]; simpl; [discriminate|].
  destruct (eqs k' k) eqn:E; simpl; rewrite E; [congruence | exact IH].
Qed.

Lemma get_Undefined o k : get o k = Undefined -> getOwn o k = None.
Proof. unfold get. now destruct (getOwn o k). Qed.

Lemma get_own o k v : getOwn o k = Some v -> get o k = Array v.
Proof. unfold get. now intros ->. Qed.

Lemma insertKey_perm n k l :
  Permutation (map snd (insertKey n k l)) (k :: map snd l).
Proof.
  induction l as [|[m k'] l IH]; simpl; [reflexivity|].
  destruct (n <=? m); simpl; [reflexivity|].
  rewrite IH. apply perm_swap.
Qed.

Lemma keys_perm o : Permutation (keys o) (ownKeys o).
Proof.
  unfold keys. induction (ownKeys o) as [|k ks IH]; simpl; [reflexivity|].
  destruct (arrayIndex k) as [n|]; simpl.
  - rewrite insertKey_perm. simpl. now constructor.
  - rewrite <- Permutation_middle. now constructor.
Qed.

(** ** The parser *)

Lemma filterMatch_nonempty line name :
  filterMatch line = Some name -> line <> [] /\ name <> [].
Proof.
  unfold filterMatch. destruct line as [|c l]; [discriminate|].
  destruct (takeWhile isNameChar (c :: l)) as [|x xs]; [discriminate|].
  destruct (dropWhile isNameChar (c :: l)) as [|y ys]; [discriminate|].
  destruct ((y =? ch ":") && forallb isWhiteSpace ys); [|discriminate].
  intros [= <-]. split; discriminate.
Qed.

Lemma parseLine_filter st raw name :
  filterMatch (trim raw) = Some name ->
  parseLine st raw
  = Normal {| result := if truthy (get (result st) name) then result st
                        else setEmpty (result st) name;
              current := Some name |}.
Proof.
  intros H. unfold parseLine.
  destruct (filterMatch_nonempty _ _ H) as [Hl _].
  destruct (trim raw) as [|c l]; [congruence|]. now rewrite H.
Qed.

Lemma parseLine_no_current st raw :
  current st = None ->
  filterMatch (trim raw) = None ->
  parseLine st raw = Normal st.
Proof.
  intros Hc H. unfold parseLine.
  destruct (trim raw) as [|c l]; [reflexivity|].
  rewrite H, Hc. now destruct (itemMatch (c :: l)).
Qed.

Lemma parseLine_wellFormed st raw st' :
  wellFormed st -> parseLine st raw = Normal st' -> wellFormed st'.
Proof.
  unfold wellFormed, parseLine. intros Hwf.
  destruct (trim raw) as [|c l]; [now intros [= <-]|].
  destruct (filterMatch (c :: l)) as [name|].
  - intros [= <-]. simpl.
    destruct (get (result st) name) eqn:E; simpl; try assumption.
    unfold setEmpty, ownKeys. rewrite map_app. simpl.
    apply NoDup_rev in Hwf. rewrite <- (rev_involutive (_ ++ _)).
    apply NoDup_rev. rewrite rev_app_distr. simpl. constructor; [|assumption].
    rewrite <- in_rev. now apply getOwn_None, get_Undefined.
  - destruct (itemMatch (c :: l)) as [g|]; [|now intros [= <-]].
    destruct (current st) as [cur|]; [|now intros [= <-]].
    destruct (isEmpty cur); [now intros [= <-]|].
    unfold push. destruct (get (result st) cur); try discriminate.
    intros [= <-]. simpl. now rewrite ownKeys_pushOwn.
Qed.

Lemma parseLines_wellFormed lines st st' :
  wellFormed st -> parseLines st lines = Normal st' -> wellFormed st'.
Proof.
  revert st. induction lines as [|raw rest IH]; simpl; intros st Hwf.
  - now intros [= <-].
  - destruct (parseLine st raw) as [st1|e] eqn:E; [|discriminate]. simpl.
    apply IH. eapply parseLine_wellFormed; eauto.
Qed.

Lemma parseFilters_NoDup yamlLike o :
  parseFilters yamlLike = Normal o -> NoDup (ownKeys o).
Proof.
  unfold parseFilters.
  destruct (parseLines initialState (splitLines yamlLike)) as [st|e] eqn:E;
    [|discriminate].
  intros [= <-]. eapply (parseLines_wellFormed _ initialState); eauto.
  constructor.
Qed.

Lemma parseLines_app st pre rest :
  parseLines st (pre ++ rest) = (st' <- parseLines st pre ;; parseLines st' rest).
Proof.
  revert st. induction pre as [|raw pre IH]; intros st; simpl; [reflexivity|].
  destruct (parseLine st raw); simpl; auto.
Qed.

(** Lines read before any filter name leave the parser where it started. *)
Lemma parseLines_before_first_name pre :
  (forall raw, In raw pre -> filterMatch (trim raw) = None) ->
  parseLines initialState pre = Normal initialState.
Proof.
  induction pre as [|raw pre IH]; intros H; simpl; [reflexivity|].
  rewrite parseLine_no_current.
  - simpl. apply IH. intros r Hr. apply H. now right.
  - reflexivity.
  - apply H. now left.
Qed.

(** Whatever stands before the first filter-name line, pattern lines
    included, has no effect on the result of the parse. *)
Lemma leading_lines_ignored pre rest :
  (forall raw, In raw pre -> filterMatch (trim raw) = None) ->
  parseLines initialState (pre ++ rest) = parseLines initialState rest.
Proof.
  intros H. now rewrite parseLines_app, parseLines_before_first_name.
Qed.

(** Without a filter-name line [main] reports an error and writes no
    output. *)
Lemma no_filter_name_is_an_error yamlLike changedFiles :
  (forall raw, In raw (splitLines yamlLike) -> filterMatch (trim raw) = None) ->
  exists e, main (Some yamlLike) changedFiles = ([], Some e).
Proof.
  intros H. unfold main.
  destruct (getInput (Some yamlLike) true) as [input|e] eqn:E; [|simpl; eauto].
  assert (input = yamlLike) as ->.
  { unfold getInput in E. destruct (true && _); congruence. }
  simpl. unfold parseFilters.
  rewrite parseLines_before_first_name by assumption. simpl. eauto.
Qed.

Local Open Scope string_scope.

(** C7, evaluated where it fails.  The line [constructor:] is a
    filter-name line, but [result["constructor"]] is found on the
    prototype of the result object: no filter is created, [main] reports
    that no filters are defined, and a pattern line after it makes the
    parser throw. *)
Theorem inherited_filter_name_is_lost :
  filterMatch (trim (str "constructor:")) = Some (str "constructor")
  /\ get [] (str "constructor") = Inherited
  /\ parseFilters (text ["constructor:"]) = Normal []
  /\ main (Some (text ["constructor:"])) [str "src/Main.java"]
     = ([], Some (Error noFilters))
  /\ parseFilters (text ["constructor:"; "  - 'src/**'"])
     = Throw (TypeError "result[current].push is not a function")
  /\ main (Some (text ["constructor:"; "  - 'src/**'"])) [str "src/Main.java"]
     = ([], Some (TypeError "result[current].push is not a function")).
Proof. repeat split; vm_compute; reflexivity. Qed.

(** C9, as the code has it.  A filter-name line makes its name the
    current filter.  The name gets an empty pattern list when the result
    has no property of that name; a name that is a filter already keeps
    the patterns it has, and the pattern line that follows is added after
    them. *)
Theorem filter_name_line_keeps_patterns st nameLine name :
  filterMatch (trim nameLine) = Some name ->
  (get (result st) name = Undefined ->
   parseLine st nameLine
   = Normal {| result := (result st ++ [(name, [])])%list; current := Some name |})
  /\ (forall pats,
         getOwn (result st) name = Some pats ->
         parseLine st nameLine
         = Normal {| result := result st; current := Some name |}
         /\ forall itemLine g,
             filterMatch (trim itemLine) = None ->
             itemMatch (trim itemLine) = Some g ->
             exists st',
               parseLines st [nameLine; itemLine] = Normal st'
               /\ current st' = Some name
               /\ ownKeys (result st') = ownKeys (result st)
               /\ getOwn (result st') name
                  = Some (pats ++ [stripQuotes (trim g)])%list).
Proof.
  intros Hname. pose proof (parseLine_filter st _ _ Hname) as Hline.
  split.
  - intros Hu. now rewrite Hline, Hu.
  - intros pats Hown. rewrite (get_own _ _ _ Hown) in Hline. simpl in Hline.
    split; [assumption|].
    intros itemLine g Hnone Hitem. simpl. rewrite Hline. simpl.
    unfold parseLine. simpl.
    destruct (trim itemLine) as [|c l] eqn:El; [discriminate|].
    rewrite Hnone, Hitem.
    destruct (filterMatch_nonempty _ _ Hname) as [_ Hne].
    destruct name as [|n0 name']; [congruence|]. simpl isEmpty. cbv iota.
    unfold push. rewrite (get_own _ _ _ Hown). simpl.
    eexists. split; [reflexivity|]. simpl.
    split; [reflexivity|]. split; [apply ownKeys_pushOwn|].
    now apply getOwn_pushOwn.
Qed.

Lemma filter_name_line_keeps_patterns_witness :
  exists st',
    parseLines
      {| result := [(str "docs", [str "docs/**"])]; current := Some (str "docs") |}
      [str "docs:"; str "  - '*.md'"]
    = Normal st'
    /\ getOwn (result st') (str "docs") = Some [str "docs/**"; str "*.md"].
Proof.
  destruct (proj2 (filter_name_line_keeps_patterns
                     {| result := [(str "docs", [str "docs/**"])];
                        current := Some (str "docs") |}
                     (str "docs:") (str "docs") eq_refl)
                  [str "docs/**"] eq_refl) as [_ H].
  destruct (H (str "  - '*.md'") (str "'*.md'") eq_refl eq_refl)
    as (st' & E & _ & _ & G).
  exists st'. split; [exact E | exact G].
Defined.

(** C9, as the claim has it, fails: the second [docs:] line does not
    empty the list, which holds the patterns that follow both lines. *)
Lemma repeated_filter_name_is_not_reset :
  parseFilters (text ["docs:"; "  - 'docs/**'"; "docs:"; "  - '*.md'"])
  = Normal [(str "docs", [str "docs/**"; str "*.md"])]
  /\ parseFilters (text ["docs:"; "  - 'docs/**'"; "docs:"; "  - '*.md'"])
     <> Normal [(str "docs", [str "*.md"])].
Proof. split; vm_compute; [reflexivity | discriminate]. Qed.

(** C10, evaluated where it fails.  A pattern line stands before the
    first filter-name line, the text has a filter-name line, and the parse
    does not succeed: the name is found on the prototype of the result
    object. *)
Theorem leading_pattern_then_inherited_name :
  filterMatch (trim (str "  - 'docs/**'")) = None
  /\ itemMatch (trim (str "  - 'docs/**'")) = Some (str "'docs/**'")
  /\ filterMatch (trim (str "toString:")) = Some (str "toString")
  /\ parseFilters (text ["  - 'docs/**'"; "toString:"; "  - 'src/**'"])
     = Throw (TypeError "result[current].push is not a function")
  /\ main (Some (text ["  - 'docs/**'"; "toString:"])) [str "src/Main.java"]
     = ([], Some (Error noFilters)).
Proof. repeat split; vm_compute; reflexivity. Qed.

(** ** The aggregation *)

Lemma boolText_true b : boolText b = str "true" <-> b = true.
Proof. destruct b; simpl; split; congruence || discriminate. Qed.

Lemma evaluateFilters_own o files names :
  (forall n, In n names -> In n (ownKeys o)) ->
  exists outs,
    evaluateFilters o files names = (outs, None)
    /\ map fst outs = names
    /\ forall name value,
        In (name, value) outs ->
        exists raws c,
          getOwn o name = Some raws
          /\ compilePatterns raws = Normal c
          /\ value = boolText (existsb (fun f => fileMatchesFilter f c) files).
Proof.
  induction names as [|n names IH]; intros Hown.
  - exists []. simpl. repeat split; auto. intros ? ? [].
  - destruct IH as (outs & E & Hfst & Hval).
    { intros m Hm. apply Hown. now right. }
    destruct (getOwn_In o n) as (raws & Hraws); [apply Hown; now left|].
    destruct (compilePatterns_spec raws) as (c & Hc & _).
    simpl. rewrite (get_own _ _ _ Hraws). simpl. rewrite Hc, E.
    eexists. split; [reflexivity|]. simpl. split; [congruence|].
    intros name value [[= <- <-] | Hin]; eauto.
Qed.

(** C5. The ANY quantifier.  [main] writes one output for each filter
    name of the parsed definition and no other; the value written for a
    filter is true exactly when some changed file is included by the
    filter; with no changed file every value is false. *)
Theorem any_quantifier yamlLike filtersMap changedFiles :
  isEmpty (trim yamlLike) = false ->
  parseFilters yamlLike = Normal filtersMap ->
  exists outs,
    main (Some yamlLike) changedFiles
    = (outs, if isEmpty (keys filtersMap) then Some (Error noFilters) else None)
    /\ Permutation (map fst outs) (ownKeys filtersMap)
    /\ NoDup (map fst outs)
    /\ (forall name value,
           In (name, value) outs ->
           exists raws c,
             getOwn filtersMap name = Some raws
             /\ compilePatterns raws = Normal c
             /\ value = boolText (existsb (fun f => fileMatchesFilter f c) changedFiles)
             /\ (value = str "true"
                 <-> exists f, In f changedFiles /\ fileMatchesFilter f c = true))
    /\ (changedFiles = [] ->
        forall name value, In (name, value) outs -> value = str "false").
Proof.
  intros Hin Hparse.
  assert (getInput (Some yamlLike) true = Normal yamlLike) as Hget.
  { unfold getInput. rewrite Hin. destruct yamlLike; [discriminate | reflexivity]. }
  pose proof (keys_perm filtersMap) as Hperm.
  pose proof (parseFilters_NoDup _ _ Hparse) as Hnd.
  destruct (evaluateFilters_own filtersMap changedFiles (keys filtersMap))
    as (outs & E & Hfst & Hval).
  { intros n Hn. eapply Permutation_in; eauto. }
  exists outs. unfold main. rewrite Hget. cbn [bind]. rewrite Hparse.
  assert (forall name value,
             In (name, value) outs ->
             exists raws c,
               getOwn filtersMap name = Some raws
               /\ compilePatterns raws = Normal c
               /\ value = boolText (existsb (fun f => fileMatchesFilter f c) changedFiles)
               /\ (value = str "true"
                   <-> exists f, In f changedFiles /\ fileMatchesFilter f c = true))
    as Hval'.
  { intros name value Hnv. destruct (Hval _ _ Hnv) as (raws & c & H1 & H2 & H3).
    exists raws, c. repeat split; try assumption.
    - subst value. rewrite boolText_true. apply existsb_exists.
    - subst value. rewrite boolText_true. apply existsb_exists. }
  split; [|split; [|split; [|split]]].
  - destruct (isEmpty (keys filtersMap)) eqn:K; [|exact E].
    destruct (keys filtersMap); [|discriminate].
    simpl in E. now injection E as <-.
  - now rewrite Hfst.
  - rewrite Hfst. eapply Permutation_NoDup; [symmetry; exact Hperm | exact Hnd].
  - exact Hval'.
  - intros -> name value Hnv.
    destruct (Hval _ _ Hnv) as (raws & c & _ & _ & ->). reflexivity.
Qed.

Lemma any_quantifier_witness :
  exists outs,
    main (Some (text ["docs:"; "  - 'docs/**'"; "code:"; "  - 'src/**'";
                      "  - '!src/**/*.md'"]))
         [str "docs/readme.md"; str "src/main.go"; str "src/notes.md"]
    = (outs, None)
    /\ Permutation (map fst outs) [str "docs"; str "code"]
    /\ NoDup (map fst outs).
Proof.
  destruct (any_quantifier
              (text ["docs:"; "  - 'docs/**'"; "code:"; "  - 'src/**'";
                     "  - '!src/**/*.md'"])
              [(str "docs", [str "docs/**"]);
               (str "code", [str "src/**"; str "!src/**/*.md"])]
              [str "docs/readme.md"; str "src/main.go"; str "src/notes.md"]
              eq_refl eq_refl)
    as (outs & E & P & D & _).
  exists outs. split; [exact E|]. split; [exact P | exact D].
Defined.

Local Close Scope string_scope.

(** * Further properties of the engine *)

(** ** White space *)

Lemma trimStart_ws w s :
  forallb isWhiteSpace w = true -> trimStart (w ++ s) = trimStart s.
Proof.
  induction w as [|c w IH]; simpl; [reflexivity|].
  intros H. apply andb_true_iff in H as [Hc Hw]. rewrite Hc. auto.
Qed.

Lemma trimStart_nonws c s :
  isWhiteSpace c = false -> trimStart (c :: s) = c :: s.
Proof. simpl. now intros ->. Qed.

Lemma trimStart_snoc l c :
  trimStart (l ++ [c])
  = match trimStart l with
    | [] => if isWhiteSpace c then [] else [c]
    | t => t ++ [c]
    end.
Proof.
  induction l as [|x l IH]; simpl; [reflexivity|].
  destruct (isWhiteSpace x); [exact IH | reflexivity].
Qed.

Lemma trimEnd_cons c s :
  trimEnd (c :: s)
  = match trimEnd s with
    | [] => if isWhiteSpace c then [] else [c]
    | t => c :: t
    end.
Proof.
  unfold trimEnd. simpl rev. rewrite trimStart_snoc.
  destruct (trimStart (rev s)) as [|x t] eqn:E; simpl.
  - now destruct (isWhiteSpace c).
  - rewrite rev_app_distr. simpl.
    destruct (rev t ++ [x]) eqn:E'; [now destruct (rev t)|reflexivity].
Qed.

Lemma trimEnd_ws w : forallb isWhiteSpace w = true -> trimEnd w = [].
Proof.
  induction w as [|c w IH]; [reflexivity|]. simpl.
  intros H. apply andb_true_iff in H as [Hc Hw].
  now rewrite trimEnd_cons, IH, Hc.
Qed.

Lemma trimEnd_app_ws s w :
  forallb isWhiteSpace w = true -> trimEnd (s ++ w) = trimEnd s.
Proof.
  intros Hw. induction s as [|c s IH]; simpl.
  - now rewrite trimEnd_ws.
  - now rewrite !trimEnd_cons, IH.
Qed.

Lemma trimEnd_snoc_nonws s c :
  isWhiteSpace c = false -> trimEnd (s ++ [c]) = s ++ [c].
Proof.
  intros Hc. unfold trimEnd. rewrite rev_app_distr. simpl.
  rewrite Hc. simpl. now rewrite rev_involutive.
Qed.

Lemma trimStart_trimEnd s : trimStart (trimEnd s) = trimEnd (trimStart s).
Proof.
  induction s as [|c s IH]; [reflexivity|].
  rewrite trimEnd_cons. simpl trimStart at 2.
  destruct (isWhiteSpace c) eqn:Hc.
  - rewrite <- IH. destruct (trimEnd s) as [|x t]; [reflexivity|].
    simpl. now rewrite Hc.
  - rewrite trimEnd_cons, Hc.
    destruct (trimEnd s) as [|x t]; simpl; now rewrite Hc.
Qed.

Lemma trimStart_idem s : trimStart (trimStart s) = trimStart s.
Proof.
  induction s as [|c s IH]; [reflexivity|]. simpl.
  destruct (isWhiteSpace c) eqn:Hc; [exact IH|]. simpl. now rewrite Hc.
Qed.

Lemma trimEnd_idem s : trimEnd (trimEnd s) = trimEnd s.
Proof.
  unfold trimEnd. now rewrite rev_involutive, trimStart_idem.
Qed.

Lemma trim_idem s : trim (trim s) = trim s.
Proof.
  unfold trim. now rewrite trimStart_trimEnd, trimStart_idem, trimEnd_idem.
Qed.

Lemma trim_pad w1 s w2 :
  forallb isWhiteSpace w1 = true ->
  forallb isWhiteSpace w2 = true ->
  trim (w1 ++ s ++ w2) = trim s.
Proof.
  intros H1 H2. unfold trim.
  rewrite trimStart_ws by assumption.
  rewrite <- !trimStart_trimEnd. now rewrite trimEnd_app_ws.
Qed.

(** A text that starts and ends with a character that is not white
    space is its own trimmed text. *)
Lemma trim_core c mid d :
  isWhiteSpace c = false -> isWhiteSpace d = false ->
  trim (c :: mid ++ [d]) = c :: mid ++ [d].
Proof.
  intros Hc Hd. unfold trim. rewrite trimStart_nonws by assumption.
  exact (trimEnd_snoc_nonws (c :: mid) d Hd).
Qed.

Lemma trim_empty_iff s : trim s = [] <-> forallb isWhiteSpace s = true.
Proof.
  unfold trim. rewrite <- trimStart_trimEnd.
  induction s as [|c s IH]; [simpl; tauto|].
  rewrite trimEnd_cons. simpl forallb.
  destruct (isWhiteSpace c) eqn:Hc; simpl.
  - destruct (trimEnd s) as [|x t] eqn:E.
    + simpl in IH. tauto.
    + simpl. rewrite Hc. exact IH.
  - split; [|discriminate].
    destruct (trimEnd s); simpl; rewrite Hc; discriminate.
Qed.

(** ** What a glob matches *)

Lemma bool_eq_iff (a b : bool) : (a = true <-> b = true) -> a = b.
Proof. destruct a, b; intuition congruence. Qed.

Lemma globTest_test glob path :
  globTest glob path = Normal (test (globRegExp glob) path).
Proof. unfold globTest. now rewrite newRegExp_globToRegex. Qed.

Lemma test_glob_iff glob path :
  test (globRegExp glob) path = true <-> Matches (globNodes glob) path.
Proof.
  unfold globRegExp. rewrite test_anchored.
  apply matchFrom_end_iff, globNodes_consuming.
Qed.

Lemma isLiteral_cons c g :
  isLiteral (c :: g) = true ->
  (c =? ch "*") = false /\ (c =? ch "?") = false /\ isLiteral g = true.
Proof.
  unfold isLiteral. simpl. rewrite !andb_true_iff, !negb_true_iff. tauto.
Qed.

Lemma globNodes_literal_app p g :
  isLiteral p = true -> globNodes (p ++ g) = map lit p ++ globNodes g.
Proof.
  induction p as [|c p IH]; [reflexivity|].
  intros H. apply isLiteral_cons in H as (Hs & Hq & Hp).
  simpl app. unfold globNodes; fold globNodes.
  rewrite Hs, Hq. simpl. now rewrite IH.
Qed.

Lemma globNodes_literal g :
  isLiteral g = true -> globNodes g = map lit g.
Proof.
  intros H. rewrite <- (app_nil_r g) at 1.
  rewrite globNodes_literal_app by assumption. apply app_nil_r.
Qed.

Lemma stripPrefix_spec p s r : stripPrefix p s = Some r <-> s = p ++ r.
Proof.
  revert s. induction p as [|x p IH]; intros s; simpl.
  - split; congruence.
  - destruct s as [|y s]; [split; discriminate|].
    destruct (N.eqb_spec x y) as [->|Hne].
    + rewrite IH. split; congruence.
    + split; [discriminate | congruence].
Qed.

Lemma stripSuffix_spec p s r : stripSuffix p s = Some r <-> s = r ++ p.
Proof.
  unfold stripSuffix.
  destruct (stripPrefix (rev p) (rev s)) as [t|] eqn:E; simpl.
  - apply stripPrefix_spec in E.
    assert (s = rev t ++ p) as Hs.
    { rewrite <- (rev_involutive s), E, rev_app_distr. now rewrite rev_involutive. }
    split.
    + now intros [= <-].
    + intros H. rewrite H in Hs. apply app_inv_tail in Hs. now subst r.
  - split; [discriminate|]. intros ->.
    rewrite rev_app_distr in E.
    assert (stripPrefix (rev p) (rev p ++ rev r) = Some (rev r)) as E'
      by now apply stripPrefix_spec.
    congruence.
Qed.

Lemma Matches_lit_prefix p ns path :
  Matches (map lit p ++ ns) path
  <-> exists rest, path = p ++ rest /\ Matches ns rest.
Proof.
  revert path. induction p as [|c p IH]; intros path; simpl.
  - split; [eauto | now intros (rest & -> & H)].
  - split.
    + inversion 1 as [|a r c' s Ha Hm| |]; subst. simpl in Ha.
      apply N.eqb_eq in Ha. subst c'.
      apply IH in Hm as (rest & -> & Hm). eauto.
    + intros (rest & -> & Hm). simpl. constructor; [apply N.eqb_refl|].
      apply IH. eauto.
Qed.

Lemma Matches_nil path : Matches [] path <-> path = [].
Proof. split; [now inversion 1 | intros ->; constructor]. Qed.

Lemma Matches_literal g path : Matches (map lit g) path <-> path = g.
Proof.
  rewrite <- (app_nil_r (map lit g)), Matches_lit_prefix.
  split.
  - intros (rest & -> & H). apply Matches_nil in H. subst. apply app_nil_r.
  - intros ->. exists []. rewrite app_nil_r. split; [reflexivity | constructor].
Qed.

Lemma Matches_star a ns path :
  Matches (Star a :: ns) path
  <-> exists x rest,
      path = x ++ rest /\ forallb (accepts a) x = true /\ Matches ns rest.
Proof.
  split.
  - intros H. remember (Star a :: ns) as l eqn:El.
    induction H as [|? ? ? ? ? ? ?|a' r s Hm _|a' r c s Ha Hm IH];
      try discriminate; injection El as -> ->.
    + exists [], s. auto.
    + destruct (IH eq_refl) as (x & rest & -> & Hx & Hr).
      exists (c :: x), rest. simpl. rewrite Ha, Hx. auto.
  - intros (x & rest & -> & Hx & Hr).
    induction x as [|c x IH]; simpl in *.
    + now apply M_star_stop.
    + apply andb_true_iff in Hx as [Hc Hx]. apply M_star_more; auto.
Qed.

(** X1. A glob without wildcard matches the path that is the glob
    itself and no other: every character special in a regular expression
    is escaped. *)
Theorem literal_glob_matches_itself glob path :
  isLiteral glob = true ->
  globTest glob path = Normal (eqs glob path).
Proof.
  intros H. rewrite globTest_test. f_equal. apply bool_eq_iff.
  rewrite test_glob_iff, globNodes_literal, Matches_literal, eqs_eq by assumption.
  split; congruence.
Qed.

Lemma literal_glob_matches_itself_witness :
  globTest (str "a.b+(c)[d]{e}|^$\/-") (str "a.b+(c)[d]{e}|^$\/-") = Normal true
  /\ globTest (str "a.b") (str "axb") = Normal false.
Proof.
  split.
  - exact (literal_glob_matches_itself
             (str "a.b+(c)[d]{e}|^$\/-") (str "a.b+(c)[d]{e}|^$\/-") eq_refl).
  - exact (literal_glob_matches_itself (str "a.b") (str "axb") eq_refl).
Defined.

(** X2. A literal prefix followed by [**]: the path is matched exactly
    when it starts with the prefix and what follows holds no line
    terminator, which the dot of the regular expression does not read. *)
Theorem prefix_glob_matches_below prefix path :
  isLiteral prefix = true ->
  globTest (prefix ++ str "**") path
  = Normal match stripPrefix prefix path with
           | Some rest => noLineTerminator rest
           | None => false
           end.
Proof.
  intros H. rewrite globTest_test. f_equal. apply bool_eq_iff.
  rewrite test_glob_iff, globNodes_literal_app by assumption.
  change (globNodes (str "**")) with [Star AnyChar].
  rewrite Matches_lit_prefix. split.
  - intros (rest & -> & Hm).
    rewrite (proj2 (stripPrefix_spec prefix _ rest) eq_refl).
    apply Matches_star in Hm as (x & r & -> & Hx & Hr).
    apply Matches_nil in Hr. subst r. now rewrite app_nil_r.
  - destruct (stripPrefix prefix path) as [rest|] eqn:E; [|discriminate].
    apply stripPrefix_spec in E. intros Hn. exists rest. split; [assumption|].
    apply Matches_star. exists rest, []. rewrite app_nil_r.
    repeat split; [exact Hn | constructor].
Qed.

Lemma prefix_glob_matches_below_witness :
  globTest (str "docs/" ++ str "**") (str "docs/guide/intro.md") = Normal true
  /\ globTest (str "docs/" ++ str "**") (str "src/docs/intro.md") = Normal false
  /\ globTest (str "docs/" ++ str "**") (str "docs/a" ++ [10] ++ str "b") = Normal false.
Proof.
  split; [|split].
  - exact (prefix_glob_matches_below (str "docs/") (str "docs/guide/intro.md") eq_refl).
  - exact (prefix_glob_matches_below (str "docs/") (str "src/docs/intro.md") eq_refl).
  - exact (prefix_glob_matches_below (str "docs/") (str "docs/a" ++ [10] ++ str "b") eq_refl).
Defined.

(** X3. [*] followed by a literal suffix: the path is matched exactly
    when it ends with the suffix and holds no separator before it, so
    [*.md] matches no file inside a directory. *)
Theorem suffix_glob_stays_in_directory suffix path :
  isLiteral suffix = true ->
  globTest (ch "*" :: suffix) path
  = Normal match stripSuffix suffix path with
           | Some name => noSlash name
           | None => false
           end.
Proof.
  intros H. rewrite globTest_test. f_equal. apply bool_eq_iff.
  rewrite test_glob_iff.
  assert (globNodes (ch "*" :: suffix) = Star NotSlash :: map lit suffix) as ->.
  { destruct suffix as [|c s]; [reflexivity|].
    pose proof (isLiteral_cons _ _ H) as (Hs & _ & _).
    rewrite <- (globNodes_literal (c :: s) H).
    simpl. simpl in Hs. now rewrite Hs. }
  rewrite Matches_star. split.
  - intros (x & rest & -> & Hx & Hr). apply Matches_literal in Hr. subst rest.
    now rewrite (proj2 (stripSuffix_spec suffix _ x) eq_refl).
  - destruct (stripSuffix suffix path) as [x|] eqn:E; [|discriminate].
    apply stripSuffix_spec in E. intros Hn. exists x, suffix.
    repeat split; [assumption | exact Hn | now apply Matches_literal].
Qed.

Lemma suffix_glob_stays_in_directory_witness :
  globTest (ch "*" :: str ".md") (str "README.md") = Normal true
  /\ globTest (ch "*" :: str ".md") (str "docs/README.md") = Normal false.
Proof.
  split.
  - exact (suffix_glob_stays_in_directory (str ".md") (str "README.md") eq_refl).
  - exact (suffix_glob_stays_in_directory (str ".md") (str "docs/README.md") eq_refl).
Defined.

Lemma countSlash_cons c s :
  countSlash (c :: s) = ((if (c =? ch "/")%N then 1 else 0) + countSlash s)%nat.
Proof. unfold countSlash. simpl. now destruct (c =? 47). Qed.

Lemma Matches_shallow ns path :
  Forall shallow ns ->
  Matches ns path ->
  countSlash path = list_sum (map nodeSlash ns).
Proof.
  intros Hs Hm. induction Hm as [|a r c s Ha Hm IH|a r s Hm IH|a r c s Ha Hm IH].
  - reflexivity.
  - apply Forall_cons_iff in Hs as [Hn Hr].
    rewrite countSlash_cons, (IH Hr). simpl map. simpl list_sum.
    destruct a as [| |x]; simpl in *; try contradiction.
    + apply negb_true_iff in Ha. now rewrite Ha.
    + apply N.eqb_eq in Ha. now subst.
  - pose proof Hs as Hs'. apply Forall_cons_iff in Hs' as [Hn Hr].
    rewrite (IH Hr). destruct a; simpl in *; try contradiction. reflexivity.
  - pose proof Hs as Hs'. apply Forall_cons_iff in Hs' as [Hn Hr].
    rewrite countSlash_cons, (IH Hs).
    destruct a; simpl in *; try contradiction.
    apply negb_true_iff in Ha. now rewrite Ha.
Qed.

Lemma globNodes_shallow glob :
  noDoubleStar glob = true ->
  Forall shallow (globNodes glob)
  /\ list_sum (map nodeSlash (globNodes glob)) = countSlash glob.
Proof.
  induction glob as [|c r IH]; [split; [constructor | reflexivity]|].
  intros H. assert (noDoubleStar r = true) as Hr.
  { simpl in H. destruct r; [reflexivity|].
    now apply andb_true_iff in H as [_ H]. }
  destruct (IH Hr) as [Hsh Hsum].
  rewrite countSlash_cons. unfold globNodes; fold globNodes.
  destruct (N.eqb_spec c (ch "*")) as [->|Hstar].
  - change (ch "*" =? ch "/") with false. cbv iota.
    destruct r as [|next r'].
    + split; [repeat constructor | reflexivity].
    + assert ((next =? ch "*") = false) as ->.
      { simpl in H. apply andb_true_iff in H as [H _].
        apply negb_true_iff in H. exact H. }
      split; [constructor; [exact I | assumption]|].
      simpl map. simpl list_sum. exact Hsum.
  - destruct (N.eqb_spec c (ch "?")) as [->|Hq].
    + split; [constructor; [exact I | assumption]|].
      simpl map. simpl list_sum. exact Hsum.
    + split; [constructor; [exact I | assumption]|].
      simpl map. simpl list_sum. now rewrite Hsum.
Qed.

(** X4. Without [**] a glob never crosses a directory boundary: every
    path it matches has exactly as many separators as the glob. *)
Theorem single_star_keeps_depth glob path :
  noDoubleStar glob = true ->
  globTest glob path = Normal true ->
  countSlash path = countSlash glob.
Proof.
  intros Hn Ht. rewrite globTest_test in Ht. injection Ht as Ht.
  apply test_glob_iff in Ht.
  destruct (globNodes_shallow glob Hn) as [Hsh Hsum].
  rewrite <- Hsum. now apply Matches_shallow.
Qed.

Lemma single_star_keeps_depth_witness :
  countSlash (str "src/main/App.java") = countSlash (str "src/*/*.java").
Proof.
  exact (single_star_keeps_depth (str "src/*/*.java") (str "src/main/App.java")
           eq_refl eq_refl).
Defined.

(** ** Negation *)

Lemma trim_bang s : trim (ch "!" :: s) = ch "!" :: trimEnd s.
Proof.
  unfold trim. rewrite trimStart_nonws by reflexivity.
  rewrite trimEnd_cons. now destruct (trimEnd s).
Qed.

Lemma trim_trimEnd s : trim (trimEnd s) = trim s.
Proof. unfold trim. now rewrite trimStart_trimEnd, trimEnd_idem. Qed.

(** X5. Writing [!] before a pattern sets the negation flag and leaves
    the matcher as it is: the glob compiled is the rest of the text,
    trimmed.  Only one [!] is taken off. *)
Theorem negation_keeps_the_matcher s :
  compilePattern (ch "!" :: s)
  = Normal {| negative := true; rx := globRegExp (trim s); raw := ch "!" :: s |}
  /\ (isNegated s = false ->
      compilePattern s
      = Normal {| negative := false; rx := globRegExp (trim s); raw := s |}).
Proof.
  split.
  - unfold compilePattern. rewrite trim_bang.
    change (startsWith (ch "!" :: trimEnd s) (ch "!")) with true. cbv iota.
    change (slice1 (ch "!" :: trimEnd s)) with (trimEnd s).
    rewrite trim_trimEnd, newRegExp_globToRegex. reflexivity.
  - unfold isNegated, compilePattern. intros ->.
    rewrite newRegExp_globToRegex. reflexivity.
Qed.

Lemma negation_keeps_the_matcher_witness :
  compilePattern (str "src/**")
  = Normal {| negative := false; rx := globRegExp (trim (str "src/**"));
              raw := str "src/**" |}.
Proof.
  exact (proj2 (negation_keeps_the_matcher (str "src/**")) eq_refl).
Defined.

(** ** Lists of one kind of pattern *)

Lemma fold_verdict_positive file ps init :
  forallb (fun p => negb (negative p)) ps = true ->
  fold_left (verdictStep file) ps init
  = init || existsb (fun p => test (rx p) file) ps.
Proof.
  revert init. induction ps as [|p ps IH]; intros init H; simpl.
  - now rewrite orb_false_r.
  - simpl in H. apply andb_true_iff in H as [Hp Hps].
    apply negb_true_iff in Hp. rewrite (IH _ Hps).
    unfold verdictStep. rewrite Hp.
    destruct (test (rx p) file), init; reflexivity.
Qed.

Lemma fold_verdict_negative file ps init :
  forallb negative ps = true ->
  fold_left (verdictStep file) ps init
  = init && negb (existsb (fun p => test (rx p) file) ps).
Proof.
  revert init. induction ps as [|p ps IH]; intros init H; simpl.
  - now rewrite andb_true_r.
  - simpl in H. apply andb_true_iff in H as [Hp Hps].
    rewrite (IH _ Hps). unfold verdictStep. rewrite Hp.
    destruct (test (rx p) file), init; reflexivity.
Qed.

Lemma forallb_map {A B} (f : A -> B) (g : B -> bool) l :
  forallb g (map f l) = forallb (fun a => g (f a)) l.
Proof. induction l; simpl; congruence. Qed.

(** X6. A list of positive patterns includes a file exactly when one of
    them matches it; a list of negated patterns includes a file exactly
    when none of them matches it. *)
Theorem one_kind_of_pattern raws c file :
  compilePatterns raws = Normal c ->
  (raws <> [] -> forallb (fun r => negb (isNegated r)) raws = true ->
   fileMatchesFilter file c = existsb (fun p => test (rx p) file) (patterns c))
  /\ (forallb isNegated raws = true ->
      fileMatchesFilter file c
      = negb (existsb (fun p => test (rx p) file) (patterns c))).
Proof.
  intros Hc.
  destruct (compilePatterns_spec raws) as (c' & Hc' & Hneg & _ & Hpos).
  assert (c' = c) by congruence. subst c'.
  rewrite fileMatchesFilter_fold.
  assert (forall g : bool -> bool,
             forallb (fun p => g (negative p)) (patterns c)
             = forallb (fun r => g (isNegated r)) raws) as Hall
    by (intros g; now rewrite <- (forallb_map negative g),
                              <- (forallb_map isNegated g), Hneg).
  split.
  - intros Hne Hp. rewrite <- (Hall negb) in Hp.
    rewrite fold_verdict_positive by assumption. rewrite Hpos.
    destruct (patterns c) as [|p ps] eqn:E.
    + destruct raws; [congruence | discriminate].
    + simpl in Hp. apply andb_true_iff in Hp as [Hp _].
      simpl existsb at 1. rewrite Hp. reflexivity.
  - intros Hn.
    assert (forallb negative (patterns c) = true) as Hn'
      by (etransitivity; [exact (Hall (fun b => b)) | exact Hn]).
    clear Hn. rename Hn' into Hn.
    rewrite fold_verdict_negative by assumption. rewrite Hpos.
    assert (existsb (fun p => negb (negative p)) (patterns c) = false) as ->.
    { clear -Hn. induction (patterns c) as [|p ps IH]; [reflexivity|].
      simpl in *. apply andb_true_iff in Hn as [Hp Hps].
      now rewrite Hp, IH. }
    reflexivity.
Qed.

Lemma one_kind_of_pattern_witness :
  (exists c, compilePatterns [str "docs/**"; str "*.md"] = Normal c
             /\ fileMatchesFilter (str "README.md") c
                = existsb (fun p => test (rx p) (str "README.md")) (patterns c))
  /\ (exists c, compilePatterns [str "!docs/**"; str "!*.md"] = Normal c
                /\ fileMatchesFilter (str "README.md") c
                   = negb (existsb (fun p => test (rx p) (str "README.md")) (patterns c))).
Proof.
  split.
  - eexists. split; [vm_compute; reflexivity|].
    apply (one_kind_of_pattern [str "docs/**"; str "*.md"]).
    + vm_compute; reflexivity.
    + discriminate.
    + vm_compute; reflexivity.
  - eexists. split; [vm_compute; reflexivity|].
    apply (one_kind_of_pattern [str "!docs/**"; str "!*.md"]).
    + vm_compute; reflexivity.
    + vm_compute; reflexivity.
Defined.

(** ** Lines *)

Lemma splitLinesFrom_line cur l (crlf : bool) rest :
  noLineBreak l = true ->
  splitLinesFrom cur (l ++ (if crlf then [13; 10] else [10]) ++ rest)
  = (rev cur ++ l) :: splitLinesFrom [] rest.
Proof.
  revert cur. induction l as [|c l IH]; intros cur H.
  - rewrite app_nil_r. destruct crlf; reflexivity.
  - simpl in H. apply andb_true_iff in H as [Hc Hl].
    apply andb_true_iff in Hc as [H10 H13].
    apply negb_true_iff in H10, H13.
    simpl app. unfold splitLinesFrom; fold splitLinesFrom. rewrite H10.
    assert (splitLinesFrom (c :: cur) (l ++ (if crlf then [13; 10] else [10]) ++ rest)
            = (rev cur ++ c :: l) :: splitLinesFrom [] rest) as E.
    { rewrite IH by assumption. simpl. now rewrite <- app_assoc. }
    destruct (l ++ (if crlf then [13; 10] else [10]) ++ rest) as [|n r'] eqn:El.
    + exact E.
    + rewrite H13. exact E.
Qed.

Lemma splitLines_joinLines lines :
  forallb (fun l => noLineBreak (fst l)) lines = true ->
  splitLines (joinLines lines) = map fst lines ++ [[]].
Proof.
  unfold splitLines. induction lines as [|[l crlf] r IH]; [reflexivity|].
  simpl. intros H. apply andb_true_iff in H as [Hl Hr].
  rewrite splitLinesFrom_line by assumption. simpl. now rewrite IH.
Qed.

(** X7. Line ends.  A text whose lines hold no line feed and no carriage
    return splits into those lines and a last empty one, whether a line
    is ended by a line feed or by a carriage return and a line feed. *)
Theorem line_ends_agree lines :
  forallb (fun l => noLineBreak (fst l)) lines = true ->
  splitLines (joinLines lines) = map fst lines ++ [[]].
Proof. apply splitLines_joinLines. Qed.

Lemma line_ends_agree_witness :
  splitLines (joinLines [(str "docs:", true); (str "  - 'docs/**'", false)])
  = [str "docs:"; str "  - 'docs/**'"; []].
Proof.
  exact (line_ends_agree [(str "docs:", true); (str "  - 'docs/**'", false)]
           eq_refl).
Defined.

Lemma splitLinesFrom_Forall (P : char -> Prop) s :
  forall cur,
    Forall P cur -> Forall P s -> Forall (Forall P) (splitLinesFrom cur s).
Proof.
  remember (List.length s) as n eqn:Hn. revert s Hn.
  induction n as [n IH] using lt_wf_ind. intros s -> cur Hcur Hs.
  assert (forall t cur', (List.length t < List.length s)%nat ->
                         Forall P cur' -> Forall P t ->
                         Forall (Forall P) (splitLinesFrom cur' t)) as IH'
    by (intros t cur' Ht; now apply (IH (List.length t))).
  clear IH.
  assert (Forall P (rev cur)) as Hrev by now apply Forall_rev.
  destruct s as [|x s]; [repeat constructor; assumption|].
  apply Forall_cons_iff in Hs as [Hx Hs].
  unfold splitLinesFrom; fold splitLinesFrom.
  destruct (x =? 10).
  - constructor; [assumption|]. apply IH'; simpl; auto.
  - destruct s as [|y r].
    + apply IH'; simpl; auto.
    + destruct ((x =? 13) && (y =? 10)).
      * constructor; [assumption|].
        apply Forall_cons_iff in Hs as [_ Hr]. apply IH'; simpl; auto.
      * apply IH'; simpl; auto.
Qed.

Lemma splitLines_blank yamlLike raw :
  trim yamlLike = [] -> In raw (splitLines yamlLike) -> trim raw = [].
Proof.
  rewrite !trim_empty_iff, !forallb_forall. intros H Hin.
  pose proof (splitLinesFrom_Forall (fun c => isWhiteSpace c = true) yamlLike []
                (Forall_nil _) (proj2 (Forall_forall _ _) H)) as HF.
  rewrite Forall_forall in HF. specialize (HF raw Hin).
  now rewrite Forall_forall in HF.
Qed.

(** ** What the parser keeps *)

Lemma takeWhile_forallb p s : forallb p (takeWhile p s) = true.
Proof.
  induction s as [|c s IH]; [reflexivity|]. simpl.
  destruct (p c) eqn:E; [simpl; now rewrite E | reflexivity].
Qed.

Lemma filterMatch_name line name :
  filterMatch line = Some name ->
  isEmpty name = false /\ forallb isNameChar name = true.
Proof.
  unfold filterMatch. pose proof (takeWhile_forallb isNameChar line) as Hall.
  destruct (takeWhile isNameChar line) as [|x xs]; [discriminate|].
  destruct (dropWhile isNameChar line) as [|y ys]; [discriminate|].
  destruct ((y =? ch ":") && forallb isWhiteSpace ys); [|discriminate].
  intros [= <-]. split; [reflexivity | assumption].
Qed.

Lemma get_cases o k :
  (exists v, getOwn o k = Some v /\ get o k = Array v)
  \/ (getOwn o k = None /\ protoName k = true /\ get o k = Inherited)
  \/ (getOwn o k = None /\ protoName k = false /\ get o k = Undefined).
Proof.
  unfold get, protoName. destruct (getOwn o k) as [v|]; [left; eauto|].
  right. destruct (existsb (eqs k) objectPrototypeKeys); auto.
Qed.

Lemma ownKeys_setEmpty o k : ownKeys (setEmpty o k) = ownKeys o ++ [k].
Proof. unfold ownKeys, setEmpty. now rewrite map_app. Qed.

Lemma parseLine_namesValid st raw st' :
  namesValid (result st) -> parseLine st raw = Normal st' ->
  namesValid (result st').
Proof.
  unfold namesValid, parseLine. intros Hv.
  destruct (trim raw) as [|c l]; [now intros [= <-]|].
  destruct (filterMatch (c :: l)) as [name|] eqn:Hf.
  - intros [= <-]. simpl.
    destruct (get_cases (result st) name)
      as [(v & _ & ->) | [(_ & _ & ->) | (_ & Hp & ->)]]; simpl; try assumption.
    rewrite ownKeys_setEmpty. apply Forall_app. split; [assumption|].
    constructor; [|constructor].
    apply filterMatch_name in Hf as [Hne Hall].
    unfold validName. now rewrite Hne, Hall, Hp.
  - destruct (itemMatch (c :: l)) as [g|]; [|now intros [= <-]].
    destruct (current st) as [cur|]; [|now intros [= <-]].
    destruct (isEmpty cur); [now intros [= <-]|].
    unfold push. destruct (get (result st) cur); try discriminate.
    intros [= <-]. simpl. now rewrite ownKeys_pushOwn.
Qed.

Lemma parseLines_namesValid lines st st' :
  namesValid (result st) -> parseLines st lines = Normal st' ->
  namesValid (result st').
Proof.
  revert st. induction lines as [|raw rest IH]; simpl; intros st Hv.
  - now intros [= <-].
  - destruct (parseLine st raw) as [st1|e] eqn:E; [|discriminate]. simpl.
    apply IH. eapply parseLine_namesValid; eauto.
Qed.

Lemma parseFilters_namesValid yamlLike o :
  parseFilters yamlLike = Normal o -> namesValid o.
Proof.
  unfold parseFilters.
  destruct (parseLines initialState (splitLines yamlLike)) as [st|e] eqn:E;
    [|discriminate].
  intros [= <-]. eapply (parseLines_namesValid _ initialState); eauto.
  constructor.
Qed.

Lemma parseLine_total st raw :
  currentIsFilter st ->
  (forall name, filterMatch (trim raw) = Some name -> protoName name = false) ->
  exists st',
    parseLine st raw = Normal st'
    /\ currentIsFilter st'
    /\ incl (ownKeys (result st)) (ownKeys (result st'))
    /\ forall name, filterMatch (trim raw) = Some name ->
                    In name (ownKeys (result st')).
Proof.
  unfold currentIsFilter, parseLine. intros Hcur Hproto.
  destruct (trim raw) as [|c l].
  - exists st. repeat split; auto using incl_refl. discriminate.
  - destruct (filterMatch (c :: l)) as [name|] eqn:Hf.
    + specialize (Hproto name eq_refl).
      eexists. split; [reflexivity|]. simpl.
      destruct (get_cases (result st) name)
        as [(v & Hown & ->) | [(_ & Hp & _) | (_ & _ & ->)]]; simpl;
        [| congruence |].
      * assert (In name (ownKeys (result st))) as Hin.
        { destruct (in_dec (list_eq_dec N.eq_dec) name (ownKeys (result st)));
            [assumption|]. apply getOwn_None in n. congruence. }
        repeat split; auto using incl_refl.
        -- now intros cur [= <-].
        -- now intros n [= <-].
      * rewrite ownKeys_setEmpty. repeat split.
        -- intros cur [= <-]. apply in_or_app. right. now left.
        -- apply incl_appl, incl_refl.
        -- intros n [= <-]. apply in_or_app. right. now left.
    + assert (forall st', Normal st = Normal st' \/
                          (exists o, Normal {| result := o; current := current st |}
                                     = Normal st'
                                     /\ ownKeys o = ownKeys (result st)) ->
                          currentIsFilter st'
                          /\ incl (ownKeys (result st)) (ownKeys (result st'))
                          /\ forall name : jsstring, None = Some name ->
                                          In name (ownKeys (result st'))) as Hok.
      { intros st' [[= <-] | (o & [= <-] & Ho)]; simpl; unfold currentIsFilter;
          simpl; rewrite ?Ho; repeat split; auto using incl_refl; discriminate. }
      assert (exists st', Normal st = Normal st'
                          /\ currentIsFilter st'
                          /\ incl (ownKeys (result st)) (ownKeys (result st'))
                          /\ forall name : jsstring, None = Some name ->
                                          In name (ownKeys (result st'))) as Hsame
        by (exists st; split; [reflexivity | apply Hok; now left]).
      destruct (itemMatch (c :: l)) as [g|]; [|exact Hsame].
      destruct (current st) as [cur|] eqn:Ec; [|exact Hsame].
      destruct (isEmpty cur); [exact Hsame|].
      destruct (getOwn_In _ _ (Hcur cur eq_refl)) as (v & Hv).
      unfold push. rewrite (get_own _ _ _ Hv). simpl.
      eexists. split; [reflexivity|]. apply Hok. right.
      eexists. split; [reflexivity|]. apply ownKeys_pushOwn.
Qed.

Lemma parseLines_total lines st :
  currentIsFilter st ->
  (forall raw name, In raw lines -> filterMatch (trim raw) = Some name ->
                    protoName name = false) ->
  exists st',
    parseLines st lines = Normal st'
    /\ currentIsFilter st'
    /\ incl (ownKeys (result st)) (ownKeys (result st'))
    /\ forall raw name, In raw lines -> filterMatch (trim raw) = Some name ->
                        In name (ownKeys (result st')).
Proof.
  revert st. induction lines as [|raw rest IH]; intros st Hcur Hproto.
  - exists st. simpl. repeat split; auto using incl_refl. intros ? ? [].
  - destruct (parseLine_total st raw Hcur) as (st1 & E1 & Hcur1 & Hinc1 & Hname1).
    { intros name. apply Hproto. now left. }
    destruct (IH st1 Hcur1) as (st' & E & Hcur' & Hinc & Hname).
    { intros r name Hr. apply Hproto. now right. }
    exists st'. simpl. rewrite E1. simpl. split; [assumption|].
    split; [assumption|]. split; [eapply incl_tran; eauto|].
    intros r name [<- | Hr] Hf; [apply Hinc; now apply Hname1 | eauto].
Qed.

(** ** Characters *)

Ltac char_facts :=
  unfold isNameChar, isWhiteSpace, isLineTerminator, ch in *;
  simpl N_of_ascii in *;
  repeat match goal with
         | H : _ = true |- _ =>
             first [ apply orb_true_iff in H as [H | H]
                   | apply andb_true_iff in H as [? H]
                   | apply N.eqb_eq in H
                   | apply N.leb_le in H ]
         end.

Lemma nameChar_not_ws c : isNameChar c = true -> isWhiteSpace c = false.
Proof.
  intros H. destruct (isWhiteSpace c) eqn:E; [exfalso|reflexivity].
  char_facts; lia.
Qed.

Lemma nameChar_not_colon c : isNameChar c = true -> (c =? ch ":") = false.
Proof.
  intros H. destruct (c =? ch ":") eqn:E; [exfalso|reflexivity].
  char_facts; lia.
Qed.

Lemma nameChar_no_break c :
  isNameChar c = true -> negb (c =? 10) && negb (c =? 13) = true.
Proof.
  intros H. destruct (c =? 10) eqn:E1; [exfalso; char_facts; lia|].
  destruct (c =? 13) eqn:E2; [exfalso; char_facts; lia|]. reflexivity.
Qed.

Lemma lineTerminator_ws c : isLineTerminator c = true -> isWhiteSpace c = true.
Proof. unfold isWhiteSpace. intros ->. now rewrite !orb_true_r. Qed.

Lemma noLineTerminator_noLineBreak s :
  noLineTerminator s = true -> noLineBreak s = true.
Proof.
  unfold noLineTerminator, noLineBreak. rewrite !forallb_forall.
  intros H c Hc. specialize (H c Hc). apply negb_true_iff in H.
  unfold isLineTerminator in H.
  destruct (c =? 10); [discriminate|]. destruct (c =? 13); [discriminate|].
  reflexivity.
Qed.

(** ** Reading back a rendered definition *)

Lemma takeWhile_app p l x r :
  forallb p l = true -> p x = false -> takeWhile p (l ++ x :: r) = l.
Proof.
  intros Hl Hx. induction l as [|c l IH]; simpl in *.
  - now rewrite Hx.
  - apply andb_true_iff in Hl as [Hc Hl]. now rewrite Hc, IH.
Qed.

Lemma dropWhile_app p l x r :
  forallb p l = true -> p x = false -> dropWhile p (l ++ x :: r) = x :: r.
Proof.
  intros Hl Hx. induction l as [|c l IH]; simpl in *.
  - now rewrite Hx.
  - apply andb_true_iff in Hl as [Hc Hl]. now rewrite Hc, IH.
Qed.

Lemma nameLine_trim name :
  isEmpty name = false -> forallb isNameChar name = true ->
  trim (name ++ str ":") = name ++ str ":".
Proof.
  intros Hne Hall. destruct name as [|c name]; [discriminate|].
  simpl in Hall. apply andb_true_iff in Hall as [Hc _].
  apply (trim_core c name (ch ":")); [now apply nameChar_not_ws | reflexivity].
Qed.

Lemma nameLine_filterMatch name :
  isEmpty name = false -> forallb isNameChar name = true ->
  filterMatch (name ++ str ":") = Some name.
Proof.
  intros Hne Hall. unfold filterMatch.
  change (name ++ str ":") with (name ++ ch ":" :: []).
  rewrite takeWhile_app, dropWhile_app by (assumption || reflexivity).
  destruct name; [discriminate | reflexivity].
Qed.

Lemma patternLine_trim pat :
  trim (renderPattern pat) = str "- '" ++ pat ++ str "'".
Proof.
  assert (renderPattern pat
          = str "  " ++ (ch "-" :: (str " '" ++ pat) ++ [ch "'"]) ++ []) as ->
    by (rewrite app_nil_r; reflexivity).
  rewrite trim_pad by reflexivity.
  rewrite trim_core by reflexivity. simpl. reflexivity.
Qed.

Lemma lazyGroup_whole g d :
  noLineTerminator g = true -> isWhiteSpace d = false ->
  lazyGroup (g ++ [d]) = Some (g ++ [d]).
Proof.
  intros Hg Hd.
  assert (isLineTerminator d = false) as Hlt.
  { destruct (isLineTerminator d) eqn:E; [|reflexivity].
    apply lineTerminator_ws in E. congruence. }
  induction g as [|c g IH]; simpl.
  - now rewrite Hlt.
  - simpl in Hg. apply andb_true_iff in Hg as [Hc Hg].
    apply negb_true_iff in Hc. rewrite Hc.
    assert (forallb isWhiteSpace (g ++ [d]) = false) as ->.
    { rewrite forallb_app. simpl. rewrite Hd. now rewrite andb_false_r. }
    now rewrite IH.
Qed.

Lemma patternLine_itemMatch pat :
  noLineTerminator pat = true ->
  itemMatch (str "- '" ++ pat ++ str "'") = Some (str "'" ++ pat ++ str "'").
Proof.
  intros Hp.
  assert (lazyGroup (str "'" ++ pat ++ str "'") = Some (str "'" ++ pat ++ str "'")) as E.
  { change (str "'" ++ pat ++ str "'") with ((ch "'" :: pat) ++ [ch "'"]).
    apply lazyGroup_whole; [|reflexivity]. simpl. now rewrite Hp. }
  change (str "- '" ++ pat ++ str "'")
    with (ch "-" :: ch " " :: (str "'" ++ pat ++ str "'")).
  unfold itemMatch. change (ch "-" =? ch "-") with true. cbv iota.
  unfold afterDash; fold afterDash.
  change (isWhiteSpace (ch " ")) with true. cbv iota.
  change (str "'" ++ pat ++ str "'") with (ch "'" :: (pat ++ str "'")) in *.
  unfold afterDash; fold afterDash.
  change (isWhiteSpace (ch "'")) with false. cbv iota.
  now rewrite E.
Qed.

Lemma quoted_stripQuotes pat :
  stripQuotes (trim (str "'" ++ pat ++ str "'")) = pat.
Proof.
  change (str "'" ++ pat ++ str "'") with (ch "'" :: pat ++ [ch "'"]).
  rewrite trim_core by reflexivity.
  unfold stripQuotes, endsWith. simpl rev. rewrite rev_app_distr. simpl.
  unfold slice1m1. simpl tl. apply removelast_last.
Qed.

Lemma pushOwn_last o name v x :
  ~ In name (ownKeys o) ->
  pushOwn (o ++ [(name, v)]) name x = o ++ [(name, v ++ [x])].
Proof.
  induction o as [|[k w] o IH]; simpl; intros Hn.
  - now rewrite eqs_refl.
  - destruct (eqs k name) eqn:E.
    + apply eqs_eq in E. exfalso. auto.
    + rewrite IH by tauto. reflexivity.
Qed.

Lemma getOwn_last o name v :
  ~ In name (ownKeys o) -> getOwn (o ++ [(name, v)]) name = Some v.
Proof.
  induction o as [|[k w] o IH]; simpl; intros Hn.
  - now rewrite eqs_refl.
  - destruct (eqs k name) eqn:E.
    + apply eqs_eq in E. exfalso. auto.
    + apply IH. tauto.
Qed.

Lemma parse_patternLine o name v pat :
  isEmpty name = false ->
  ~ In name (ownKeys o) ->
  noLineTerminator pat = true ->
  parseLine {| result := o ++ [(name, v)]; current := Some name |} (renderPattern pat)
  = Normal {| result := o ++ [(name, v ++ [pat])]; current := Some name |}.
Proof.
  intros Hne Hn Hp. unfold parseLine. rewrite patternLine_trim.
  remember (str "- '" ++ pat ++ str "'") as line eqn:El.
  assert (filterMatch line = None) as Hf by (subst line; reflexivity).
  assert (itemMatch line = Some (str "'" ++ pat ++ str "'")) as Hi
    by (subst line; now apply patternLine_itemMatch).
  destruct line as [|c l]; [discriminate|].
  rewrite Hf, Hi. cbn [current result]. rewrite Hne.
  rewrite quoted_stripQuotes. unfold push.
  assert (get (o ++ [(name, v)]) name = Array v) as G
    by now apply get_own, getOwn_last.
  assert (pushOwn (o ++ [(name, v)]) name pat = o ++ [(name, v ++ [pat])]) as P
    by now apply pushOwn_last.
  unfold jsstring, object in *. rewrite G, P. reflexivity.
Qed.

Lemma parse_patternLines pats :
  forall o name v,
    isEmpty name = false ->
    ~ In name (ownKeys o) ->
    forallb noLineTerminator pats = true ->
    parseLines {| result := o ++ [(name, v)]; current := Some name |}
               (map renderPattern pats)
    = Normal {| result := o ++ [(name, v ++ pats)]; current := Some name |}.
Proof.
  induction pats as [|pat pats IH]; intros o name v Hne Hn Hp; simpl.
  - now rewrite app_nil_r.
  - simpl in Hp. apply andb_true_iff in Hp as [Hpat Hps].
    rewrite parse_patternLine by assumption. simpl.
    rewrite IH by assumption. now rewrite <- app_assoc.
Qed.

Lemma validName_parts name :
  validName name = true ->
  isEmpty name = false /\ forallb isNameChar name = true /\ protoName name = false.
Proof.
  unfold validName. rewrite !andb_true_iff, !negb_true_iff. tauto.
Qed.

Lemma parse_renderFilter o cur f :
  validFilter f = true ->
  ~ In (fst f) (ownKeys o) ->
  parseLines {| result := o; current := cur |} (renderFilter f)
  = Normal {| result := o ++ [f]; current := Some (fst f) |}.
Proof.
  destruct f as [name pats]. unfold validFilter, renderFilter. simpl fst. simpl snd.
  intros Hv Hn. apply andb_true_iff in Hv as [Hname Hpats].
  apply validName_parts in Hname as (Hne & Hall & Hproto).
  simpl parseLines.
  rewrite (parseLine_filter _ _ name)
    by (rewrite nameLine_trim by assumption; now apply nameLine_filterMatch).
  simpl result.
  destruct (get_cases o name) as [(v & Hown & _) | [(_ & Hp & _) | (_ & _ & ->)]].
  - exfalso. apply Hn.
    destruct (in_dec (list_eq_dec N.eq_dec) name (ownKeys o)) as [|n];
      [assumption|]. apply getOwn_None in n. congruence.
  - congruence.
  - cbn [bind truthy]. unfold setEmpty.
    exact (parse_patternLines pats o name [] Hne Hn Hpats).
Qed.

Lemma parse_render o2 :
  forall o1 cur,
    forallb validFilter o2 = true ->
    NoDup (ownKeys (o1 ++ o2)) ->
    exists cur',
      parseLines {| result := o1; current := cur |} (render o2)
      = Normal {| result := o1 ++ o2; current := cur' |}.
Proof.
  induction o2 as [|f o2 IH]; intros o1 cur Hv Hnd.
  - exists cur. simpl. now rewrite app_nil_r.
  - simpl in Hv. apply andb_true_iff in Hv as [Hf Hv].
    assert (~ In (fst f) (ownKeys o1)) as Hn.
    { unfold ownKeys in *. rewrite map_app in Hnd. simpl in Hnd.
      apply NoDup_remove_2 in Hnd. intros Hin. apply Hnd.
      apply in_or_app. now left. }
    change (render (f :: o2)) with (renderFilter f ++ render o2).
    rewrite parseLines_app, (parse_renderFilter o1 cur f) by assumption.
    simpl bind.
    destruct (IH (o1 ++ [f]) (Some (fst f)) Hv) as (cur' & E).
    { now rewrite <- app_assoc. }
    exists cur'. rewrite E. now rewrite <- app_assoc.
Qed.

Lemma render_noLineBreak o :
  forallb validFilter o = true ->
  forallb noLineBreak (render o) = true.
Proof.
  induction o as [|[name pats] o IH]; [reflexivity|].
  simpl. intros H. apply andb_true_iff in H as [Hf Ho].
  unfold validFilter in Hf. simpl in Hf. apply andb_true_iff in Hf as [Hname Hpats].
  apply validName_parts in Hname as (_ & Hall & _).
  rewrite forallb_app, (IH Ho), andb_true_r.
  apply andb_true_iff. split.
  - unfold noLineBreak. rewrite forallb_app. apply andb_true_iff.
    split; [|reflexivity].
    rewrite forallb_forall in *. intros c Hc. now apply nameChar_no_break, Hall.
  - rewrite forallb_forall in *. intros l Hl.
    apply in_map_iff in Hl as (pat & <- & Hpat).
    pose proof (noLineTerminator_noLineBreak pat (Hpats pat Hpat)) as Hnb.
    unfold renderPattern, noLineBreak in *. rewrite !forallb_app.
    apply andb_true_iff. split; [reflexivity|].
    apply andb_true_iff. split; [exact Hnb | reflexivity].
Qed.

(** X8. Round trip.  A filter set with distinct, valid names and with
    patterns that hold no line terminator, written one name and one
    quoted pattern to a line, is read back as it was, with either kind
    of line end. *)
Theorem parse_render_round_trip o crlf :
  NoDup (ownKeys o) ->
  forallb validFilter o = true ->
  parseFilters (renderText crlf o) = Normal o.
Proof.
  intros Hnd Hv. unfold parseFilters, renderText.
  rewrite splitLines_joinLines.
  - assert (map fst (withEnds crlf (render o)) = render o) as ->.
    { unfold withEnds. rewrite map_map. simpl. apply map_id. }
    rewrite parseLines_app. unfold initialState.
    destruct (parse_render o [] None Hv Hnd) as (cur' & ->). reflexivity.
  - unfold withEnds. rewrite forallb_map. simpl.
    now apply render_noLineBreak.
Qed.

Lemma parse_render_round_trip_witness :
  parseFilters
    (renderText true [(str "docs", [str "docs/**"; str "it's"]);
                      (str "code", [str "src/**"; str "!src/**/*.md"]);
                      (str "none", [])])
  = Normal [(str "docs", [str "docs/**"; str "it's"]);
            (str "code", [str "src/**"; str "!src/**/*.md"]);
            (str "none", [])].
Proof.
  apply parse_render_round_trip.
  - repeat constructor; simpl; intuition discriminate.
  - vm_compute. reflexivity.
Defined.

(** X9. Every line before the first filter-name line is ignored: the
    parse gives what it gives for the lines that follow. *)
Theorem lines_before_first_name_are_ignored pre rest :
  (forall raw, In raw pre -> filterMatch (trim raw) = None) ->
  (st <- parseLines initialState (pre ++ rest) ;; Normal (result st))
  = (st <- parseLines initialState rest ;; Normal (result st)).
Proof. intros H. now rewrite leading_lines_ignored. Qed.

Lemma lines_before_first_name_are_ignored_witness :
  (st <- parseLines initialState
           ([str "  - 'lost/**'"; str "# comment"] ++ [str "docs:"; str "  - 'docs/**'"]) ;;
   Normal (result st))
  = (st <- parseLines initialState [str "docs:"; str "  - 'docs/**'"] ;;
     Normal (result st)).
Proof.
  apply lines_before_first_name_are_ignored.
  intros raw [<- | [<- | []]]; reflexivity.
Defined.

(** X10. Without a filter-name line nothing is written: [main] ends with
    an error and no output. *)
Theorem no_filter_name_no_output yamlLike changedFiles :
  (forall raw, In raw (splitLines yamlLike) -> filterMatch (trim raw) = None) ->
  exists e, main (Some yamlLike) changedFiles = ([], Some e).
Proof. apply no_filter_name_is_an_error. Qed.

Lemma no_filter_name_no_output_witness :
  exists e, main (Some (str "  - 'docs/**'")) [str "docs/a.md"] = ([], Some e).
Proof.
  apply no_filter_name_no_output.
  intros raw [<- | []]. reflexivity.
Defined.

(** X11. White space at the start and at the end of a line, indentation
    and a stray carriage return included, does not change what the line
    does. *)
Theorem indentation_is_ignored st w1 raw w2 :
  forallb isWhiteSpace w1 = true ->
  forallb isWhiteSpace w2 = true ->
  parseLine st (w1 ++ raw ++ w2) = parseLine st raw.
Proof. intros H1 H2. unfold parseLine. now rewrite trim_pad. Qed.

Lemma indentation_is_ignored_witness :
  parseLine initialState ([9; 32] ++ str "docs:" ++ [32; 13])
  = parseLine initialState (str "docs:").
Proof.
  apply indentation_is_ignored; reflexivity.
Defined.

(** ** What [main] writes *)

Lemma evaluateFilters_names o files names :
  (forall n, In n names -> In n (ownKeys o)) ->
  evaluateFilters o files names
  = (map (fun n => (n, boolText (anyIncluded (rawsOf o n) files))) names, None).
Proof.
  induction names as [|n names IH]; intros Hown; [reflexivity|].
  destruct (getOwn_In o n) as (raws & Hraws); [apply Hown; now left|].
  destruct (compilePatterns_spec raws) as (c & Hc & _).
  simpl. rewrite (get_own _ _ _ Hraws). simpl. rewrite Hc.
  rewrite IH by (intros m Hm; apply Hown; now right).
  unfold anyIncluded, rawsOf, compiledOf. now rewrite Hraws, Hc.
Qed.

Lemma keys_own o n : In n (keys o) -> In n (ownKeys o).
Proof. apply Permutation_in, keys_perm. Qed.

Lemma main_parsed yamlLike o files :
  isEmpty (trim yamlLike) = false ->
  parseFilters yamlLike = Normal o ->
  main (Some yamlLike) files
  = if isEmpty (keys o) then ([], Some (Error noFilters))
    else (map (fun n => (n, boolText (anyIncluded (rawsOf o n) files))) (keys o),
          None).
Proof.
  intros Hin Hparse. unfold main.
  assert (getInput (Some yamlLike) true = Normal yamlLike) as ->.
  { unfold getInput. rewrite Hin. destruct yamlLike; [discriminate | reflexivity]. }
  cbn [bind]. rewrite Hparse.
  destruct (isEmpty (keys o)); [reflexivity|].
  apply evaluateFilters_names. apply keys_own.
Qed.

(** The three ways [main] can end. *)
Lemma main_cases filters files :
  (exists e, main filters files = ([], Some e))
  \/ exists yamlLike o,
      filters = Some yamlLike
      /\ parseFilters yamlLike = Normal o
      /\ keys o <> []
      /\ main filters files
         = (map (fun n => (n, boolText (anyIncluded (rawsOf o n) files))) (keys o),
            None).
Proof.
  unfold main.
  destruct (getInput filters true) as [input|e] eqn:Eg; [|left; simpl; eauto].
  cbn [bind].
  destruct (parseFilters input) as [o|e] eqn:Ep; [|left; eauto].
  destruct (keys o) as [|k ks] eqn:Ek; [left; simpl; eauto|].
  right. unfold getInput in Eg.
  destruct filters as [v|]; [|discriminate].
  destruct (true && _); [discriminate|]. injection Eg as <-.
  exists v, o. rewrite <- Ek. repeat split; auto.
  - rewrite Ek. discriminate.
  - rewrite Ek at 1. cbn [isEmpty].
    apply evaluateFilters_names, keys_own.
Qed.

Lemma boolText_cases b : boolText b = str "true" \/ boolText b = str "false".
Proof. destruct b; auto. Qed.

(** X12. When the text has a filter-name line and no filter name is a
    property of [Object.prototype], [main] ends without error and writes
    an output for every filter name of the text. *)
Theorem valid_names_always_parse yamlLike changedFiles :
  (exists raw name,
      In raw (splitLines yamlLike) /\ filterMatch (trim raw) = Some name) ->
  (forall raw name,
      In raw (splitLines yamlLike) -> filterMatch (trim raw) = Some name ->
      protoName name = false) ->
  exists outs,
    main (Some yamlLike) changedFiles = (outs, None)
    /\ forall raw name,
        In raw (splitLines yamlLike) -> filterMatch (trim raw) = Some name ->
        In name (map fst outs).
Proof.
  intros (raw0 & name0 & Hin0 & Hf0) Hproto.
  assert (isEmpty (trim yamlLike) = false) as Hne.
  { destruct (trim yamlLike) eqn:E; [|reflexivity].
    rewrite (splitLines_blank _ _ E Hin0) in Hf0. discriminate. }
  destruct (parseLines_total (splitLines yamlLike) initialState)
    as (st & E & _ & _ & Hnames).
  { intros cur. discriminate. }
  { exact Hproto. }
  assert (parseFilters yamlLike = Normal (result st)) as Hparse
    by (unfold parseFilters; now rewrite E).
  rewrite (main_parsed _ _ _ Hne Hparse).
  assert (forall n, In n (ownKeys (result st)) -> In n (keys (result st))) as Hk
    by (intros n; apply Permutation_in; symmetry; apply keys_perm).
  destruct (keys (result st)) as [|k ks] eqn:Ek.
  - exfalso. apply (Hk name0). eauto.
  - cbn [isEmpty]. eexists. split; [reflexivity|].
    intros raw name Hr Hf. rewrite map_map. simpl. rewrite map_id.
    apply Hk. eauto.
Qed.

Lemma valid_names_always_parse_witness :
  exists outs,
    main (Some (text ["docs:"%string; "  - 'docs/**'"%string; "empty:"%string]))
         [str "docs/a.md"]
    = (outs, None)
    /\ In (str "docs") (map fst outs) /\ In (str "empty") (map fst outs).
Proof.
  destruct (valid_names_always_parse
              (text ["docs:"%string; "  - 'docs/**'"%string; "empty:"%string])
              [str "docs/a.md"]) as (outs & E & H).
  - exists (str "docs:"), (str "docs"). split; [now left | reflexivity].
  - intros raw name [<- | [<- | [<- | [<- | []]]]]; vm_compute;
      intros [= <-] || discriminate; reflexivity.
  - exists outs. split; [exact E|]. split.
    + apply (H (str "docs:")); [now left | reflexivity].
    + apply (H (str "empty:")); [right; right; now left | reflexivity].
Defined.

Lemma main_outputs_valid filters changedFiles name value :
  In (name, value) (fst (main filters changedFiles)) ->
  isEmpty name = false
  /\ forallb isNameChar name = true
  /\ (value = str "true" \/ value = str "false").
Proof.
  destruct (main_cases filters changedFiles)
    as [(e & ->) | (y & o & _ & Hparse & _ & ->)]; [intros []|].
  simpl fst. intros Hin. apply in_map_iff in Hin as (n & [= <- <-] & Hn).
  pose proof (parseFilters_namesValid _ _ Hparse) as Hv.
  unfold namesValid in Hv. rewrite Forall_forall in Hv.
  specialize (Hv n (keys_own _ _ Hn)).
  apply validName_parts in Hv as (H1 & H2 & _).
  auto using boolText_cases.
Qed.

(** X13. Every output [main] writes has the name of a filter, an
    identifier that holds no [=] and no line break, and the value
    [true] or [false]. *)
Theorem outputs_well_formed filters changedFiles name value :
  In (name, value) (fst (main filters changedFiles)) ->
  isEmpty name = false
  /\ forallb isNameChar name = true
  /\ (value = str "true" \/ value = str "false").
Proof. apply main_outputs_valid. Qed.

Lemma outputs_well_formed_witness :
  isEmpty (str "docs") = false
  /\ forallb isNameChar (str "docs") = true
  /\ (str "true" = str "true" \/ str "true" = str "false").
Proof.
  apply (outputs_well_formed (Some (text ["docs:"%string; "  - 'docs/**'"%string]))
           [str "docs/a.md"] (str "docs") (str "true")).
  vm_compute. now left.
Defined.



Lemma anyIncluded_iff raws files :
  anyIncluded raws files = true
  <-> exists f, In f files /\ fileMatchesFilter f (compiledOf raws) = true.
Proof. unfold anyIncluded. apply existsb_exists. Qed.

Lemma anyIncluded_perm raws files files' :
  Permutation files files' ->
  anyIncluded raws files = anyIncluded raws files'.
Proof.
  intros Hp. apply bool_eq_iff. rewrite !anyIncluded_iff.
  split; intros (f & Hin & Hf); exists f; split; auto.
  - eapply Permutation_in; eauto.
  - eapply Permutation_in; [symmetry|]; eauto.
Qed.

(** X15. The order in which the changed files are reported, and how often
    each is reported, makes no difference to what [main] writes. *)
Theorem changed_file_order_is_irrelevant filters files files' :
  (forall f, In f files <-> In f files') ->
  main filters files = main filters files'.
Proof.
  intros Hsame.
  assert (forall raws, anyIncluded raws files = anyIncluded raws files') as Hany.
  { intros raws. apply bool_eq_iff. rewrite !anyIncluded_iff.
    split; intros (f & Hin & Hf); exists f; split; auto; now apply Hsame. }
  unfold main. destruct (filtersInput <- getInput filters true ;; parseFilters filtersInput)
    as [o|e]; [|reflexivity].
  destruct (isEmpty (keys o)); [reflexivity|].
  rewrite !evaluateFilters_names by apply keys_own.
  f_equal. apply map_ext. intros n. now rewrite Hany.
Qed.

Lemma changed_file_order_is_irrelevant_witness :
  main (Some (text ["docs:"%string; "  - 'docs/**'"%string]))
       [str "docs/a.md"; str "src/b"]
  = main (Some (text ["docs:"%string; "  - 'docs/**'"%string]))
         [str "src/b"; str "docs/a.md"; str "src/b"].
Proof.
  apply changed_file_order_is_irrelevant.
  intros f; simpl; tauto.
Defined.

(** X16. The files are judged one by one: a filter is true for two sets
    of changed files taken together exactly when it is true for one of
    them.  More changed files never turn a true filter into a false one. *)
Theorem more_files_only_add filters files1 files2 name :
  In (name, str "true") (fst (main filters (files1 ++ files2)))
  <-> In (name, str "true") (fst (main filters files1))
      \/ In (name, str "true") (fst (main filters files2)).
Proof.
  assert (forall o files,
             In (name, str "true")
                (map (fun n => (n, boolText (anyIncluded (rawsOf o n) files))) (keys o))
             <-> In name (keys o) /\ anyIncluded (rawsOf o name) files = true) as Hin.
  { intros o files. rewrite in_map_iff. split.
    - intros (n & [= -> Hb] & Hn). split; [assumption|]. now apply boolText_true.
    - intros [Hn Hb]. exists name. split; [|assumption].
      now rewrite (proj2 (boolText_true _) Hb). }
  unfold main.
  destruct (filtersInput <- getInput filters true ;; parseFilters filtersInput)
    as [o|e]; [|simpl; tauto].
  destruct (isEmpty (keys o)); [simpl; tauto|].
  rewrite !evaluateFilters_names by apply keys_own. simpl fst.
  rewrite !Hin. unfold anyIncluded. rewrite existsb_app, orb_true_iff. tauto.
Qed.

Lemma keys_no_index ks :
  forallb (fun k => negb (isArrayIndex k)) ks = true ->
  indexKeys ks = [] /\ otherKeys ks = ks.
Proof.
  induction ks as [|k ks IH]; [split; reflexivity|].
  simpl. unfold isArrayIndex at 1. intros H.
  apply andb_true_iff in H as [Hk Hks]. destruct (IH Hks) as [Hi Ho].
  destruct (arrayIndex k); [discriminate|]. now rewrite Ho.
Qed.

(** X17. Filters in declaration order.  For a rendered filter set whose
    names are no array indices, [main] writes one output for each filter,
    in the order of the set, with the verdict of the ANY quantifier over
    the compiled patterns of the filter. *)
Theorem main_on_rendered_filters o crlf changedFiles :
  o <> [] ->
  NoDup (ownKeys o) ->
  forallb validFilter o = true ->
  forallb (fun f => negb (isArrayIndex (fst f))) o = true ->
  main (Some (renderText crlf o)) changedFiles
  = (map (filterResult changedFiles) o, None).
Proof.
  intros Hne Hnd Hv Hidx.
  pose proof (parse_render_round_trip o crlf Hnd Hv) as Hparse.
  assert (isEmpty (trim (renderText crlf o)) = false) as Hnb.
  { destruct (trim (renderText crlf o)) eqn:E; [|reflexivity]. exfalso.
    unfold parseFilters in Hparse.
    rewrite parseLines_before_first_name in Hparse.
    - simpl in Hparse. congruence.
    - intros raw Hr. now rewrite (splitLines_blank _ _ E Hr). }
  rewrite (main_parsed _ _ _ Hnb Hparse).
  assert (keys o = ownKeys o) as Hk.
  { unfold keys.
    destruct (keys_no_index (ownKeys o)) as [-> ->]; [|reflexivity].
    unfold ownKeys. now rewrite forallb_map. }
  rewrite Hk.
  assert (isEmpty (ownKeys o) = false) as ->
    by (destruct o; [congruence | reflexivity]).
  f_equal. unfold ownKeys. rewrite map_map. apply map_ext_in.
  intros [k v] Hin. unfold filterResult, rawsOf. simpl.
  assert (getOwn o k = Some v) as ->; [|reflexivity].
  clear -Hnd Hin. induction o as [|[k' v'] oo IH]; [destruct Hin|].
  simpl in *. apply NoDup_cons_iff in Hnd as [Hk' Hnd].
  destruct Hin as [[= -> ->] | Hin]; [now rewrite eqs_refl|].
  destruct (eqs k' k) eqn:E; [|auto].
  apply eqs_eq in E. subst. exfalso. apply Hk'.
  apply in_map_iff. exists (k, v). auto.
Qed.

Lemma main_on_rendered_filters_witness :
  main (Some (renderText false [(str "docs", [str "docs/**"]);
                                (str "code", [str "src/**"; str "!src/**/*.md"])]))
       [str "docs/readme.md"; str "src/doc/notes.md"]
  = ([(str "docs", str "true"); (str "code", str "false")], None).
Proof.
  refine (eq_trans
            (main_on_rendered_filters
               [(str "docs", [str "docs/**"]);
                (str "code", [str "src/**"; str "!src/**/*.md"])]
               false [str "docs/readme.md"; str "src/doc/notes.md"] _ _ _ _) _).
  - discriminate.
  - repeat constructor; simpl; intuition discriminate.
  - vm_compute; reflexivity.
  - vm_compute; reflexivity.
  - vm_compute; reflexivity.
Defined.

(** ** Fetching the changed files *)

Lemma fetchPages_pages httpJson mk full :
  forall fuel j acc answer,
    (forall i items,
        nth_error full i = Some items ->
        httpJson (mk (N.of_nat (S (j + i)))) = Normal (JArray items)
        /\ (perPage <=? N.of_nat (List.length items)) = true) ->
    httpJson (mk (N.of_nat (S (j + List.length full)))) = answer ->
    isFinal answer = true ->
    (List.length full < fuel)%nat ->
    fetchPages httpJson mk fuel (N.of_nat (S j)) acc
    = (map mk (map N.of_nat (seq (S j) (S (List.length full)))),
       Some (finish (acc ++ flat_map filenames full) answer)).
Proof.
  induction full as [|items full IH]; intros fuel j acc answer Hfull Hlast Hfin Hfuel.
  - destruct fuel as [|fuel]; [simpl in Hfuel; lia|].
    simpl List.length in *. rewrite Nat.add_0_r in Hlast.
    cbn [fetchPages seq map flat_map]. rewrite Hlast, app_nil_r.
    destruct answer as [[|items]|e]; cbn [finish]; try reflexivity.
    cbn [isFinal] in Hfin. rewrite Hfin.
    destruct items; cbn [isEmpty filenames]; [now rewrite app_nil_r | reflexivity].
  - destruct fuel as [|fuel]; [simpl in Hfuel; lia|].
    destruct (Hfull 0%nat items eq_refl) as [Hreq Hlen].
    rewrite Nat.add_0_r in Hreq.
    unfold fetchPages; fold fetchPages. rewrite Hreq.
    assert (isEmpty items = false) as ->.
    { destruct items; [|reflexivity]. simpl in Hlen. discriminate. }
    assert ((N.of_nat (List.length items) <? perPage) = false) as ->.
    { apply N.ltb_ge. now apply N.leb_le. }
    replace (N.of_nat (S j) + 1) with (N.of_nat (S (S j))) by lia.
    rewrite (IH fuel (S j) (acc ++ filenames items) answer).
    + simpl flat_map. rewrite <- app_assoc. reflexivity.
    + intros i its Hi. specialize (Hfull (S i) its Hi).
      now rewrite Nat.add_succ_r in Hfull.
    + simpl List.length in Hlast. now rewrite Nat.add_succ_r in Hlast.
    + assumption.
    + simpl in Hfuel. lia.
Qed.

(** X18. Pagination.  When the pages [1 .. n] come back full (an array
    of at least 100 items) and the answer to page [n + 1] is a shorter
    array, no array, or a rejection, the loop makes exactly the requests
    for the pages [1 .. n + 1], in order; it returns the file names of all
    the pages in order, or fails with the rejection, in which case the
    file names read before are lost. *)
Theorem pagination_reads_every_page httpJson mk full answer fuel :
  (forall i items,
      nth_error full i = Some items ->
      httpJson (mk (N.of_nat (S i))) = Normal (JArray items)
      /\ (perPage <=? N.of_nat (List.length items)) = true) ->
  httpJson (mk (N.of_nat (S (List.length full)))) = answer ->
  isFinal answer = true ->
  (List.length full < fuel)%nat ->
  fetchPages httpJson mk fuel 1 []
  = (map mk (pagesUpTo (S (List.length full))),
     Some (finish (flat_map filenames full) answer)).
Proof.
  intros Hfull Hlast Hfin Hfuel.
  exact (fetchPages_pages httpJson mk full fuel 0 [] answer Hfull Hlast Hfin Hfuel).
Qed.

Lemma pagination_reads_every_page_witness :
  fetchPages
    (fun req =>
       if eqs (path req) (pagePath (str "o") (str "r") 7 1)
       then Normal (JArray (repeat (Some (str "a")) 100))
       else Normal (JArray [Some (str "b"); None]))
    (pageRequest (str "o") (str "r") 7 (str "t")) 5 1 []
  = (map (pageRequest (str "o") (str "r") 7 (str "t")) [1; 2],
     Some (Normal (repeat (str "a") 100 ++ [str "b"]))).
Proof.
  refine (eq_trans
            (pagination_reads_every_page _ _ [repeat (Some (str "a")) 100]
               (Normal (JArray [Some (str "b"); None])) 5 _ _ _ _) _).
  - intros [|[|i]] items; simpl; try discriminate.
    intros [= <-]. split; vm_compute; reflexivity.
  - vm_compute; reflexivity.
  - reflexivity.
  - simpl; lia.
  - vm_compute; reflexivity.
Defined.




(** ** The whole run *)

Lemma action_parsed e httpJson fuel :
  snd (main (INPUT_FILTERS e) []) = None ->
  action e httpJson fuel
  = match getChangedFilesFromPR e httpJson fuel with
    | (reqs, None) => (reqs, None)
    | (reqs, Some (Throw err)) => (reqs, Some ([], Some err))
    | (reqs, Some (Normal changedFiles)) =>
        (reqs, Some (main (INPUT_FILTERS e) changedFiles))
    end.
Proof.
  unfold action, main.
  destruct (filtersInput <- getInput (INPUT_FILTERS e) true ;; parseFilters filtersInput)
    as [o|err]; [|discriminate].
  destruct (isEmpty (keys o)); [discriminate|]. reflexivity.
Qed.

Lemma action_not_parsed e httpJson fuel err :
  snd (main (INPUT_FILTERS e) []) = Some err ->
  action e httpJson fuel = ([], Some ([], Some err)).
Proof.
  unfold action, main.
  destruct (filtersInput <- getInput (INPUT_FILTERS e) true ;; parseFilters filtersInput)
    as [o|err']; [|now intros [= ->]].
  destruct (isEmpty (keys o)) eqn:E; [now intros [= ->]|].
  rewrite evaluateFilters_names by apply keys_own. discriminate.
Qed.

(** X20. The filters come first: when they are missing, cannot be parsed
    or define no filter, the run ends with that error before any request
    is made, and writes no output. *)
Theorem invalid_filters_make_no_request e httpJson fuel err :
  snd (main (INPUT_FILTERS e) []) = Some err ->
  action e httpJson fuel = ([], Some ([], Some err)).
Proof. apply action_not_parsed. Qed.


(** X22. When a request is rejected, or the payload cannot be read, the
    run writes no output at all. *)
Theorem failed_request_writes_nothing e httpJson fuel reqs err :
  getChangedFilesFromPR e httpJson fuel = (reqs, Some (Throw err)) ->
  exists reqs' err', action e httpJson fuel = (reqs', Some ([], Some err')).
Proof.
  intros Hfetch.
  destruct (snd (main (INPUT_FILTERS e) [])) as [err'|] eqn:E.
  - rewrite (action_not_parsed _ _ _ _ E). eauto.
  - rewrite (action_parsed _ _ _ E), Hfetch. eauto.
Qed.

Lemma invalid_filters_make_no_request_witness :
  action (pullRequestRun (Some (str "  - 'docs/**'")))
         (fun _ => Normal (JArray [Some (str "docs/a.md")])) 3
  = ([], Some ([], Some (Error noFilters))).
Proof.
  apply invalid_filters_make_no_request. vm_compute. reflexivity.
Defined.


Lemma failed_request_writes_nothing_witness :
  exists reqs' err',
    action (pullRequestRun (Some (str "docs:" ++ [10] ++ str "  - 'docs/**'")))
           (fun _ => Throw (Error "HTTP 403 Forbidden")) 3
    = (reqs', Some ([], Some err')).
Proof.
  apply (failed_request_writes_nothing _ _ _
           [pageRequest (str "o") (str "r") 7 (str "t") 1]
           (Error "HTTP 403 Forbidden")).
  vm_compute. reflexivity.
Defined.

(** ** The output file *)

Lemma nameChar_not_equals c : isNameChar c = true -> (c =? ch "=") = false.
Proof.
  intros H. destruct (c =? ch "=") eqn:E; [exfalso|reflexivity].
  char_facts; lia.
Qed.

Lemma appended_outputs e file outs :
  GITHUB_OUTPUT e = Some file ->
  isEmpty file = false ->
  appended file (outputEffects e outs)
  = joinLines (map (fun o => (outputLine o, false)) outs).
Proof.
  intros Hf Hne. induction outs as [|[name value] outs IH]; [reflexivity|].
  simpl. unfold setOutput. rewrite Hf.
  destruct file as [|c p]; [discriminate|].
  cbn [appended]. rewrite eqs_refl, IH. unfold outputLine. simpl fst. simpl snd.
  now rewrite <- !app_assoc.
Qed.

(** X23. The output file.  With [GITHUB_OUTPUT] set, the text the run
    appends to that file is one line [name=value] for each output, in
    order, each ended by a line feed; the text before the first [=] of a
    line is the name of its filter. *)
Theorem output_file_has_one_line_per_filter e file filters changedFiles :
  GITHUB_OUTPUT e = Some file ->
  isEmpty file = false ->
  splitLines (appended file (outputEffects e (fst (main filters changedFiles))))
  = map outputLine (fst (main filters changedFiles)) ++ [[]]
  /\ map beforeEquals (map outputLine (fst (main filters changedFiles)))
     = map fst (fst (main filters changedFiles)).
Proof.
  intros Hf Hne. rewrite (appended_outputs e file _ Hf Hne).
  pose proof (main_outputs_valid filters changedFiles) as Hvalid.
  induction (fst (main filters changedFiles)) as [|[name value] outs IH].
  - split; reflexivity.
  - destruct (Hvalid name value (or_introl eq_refl)) as (_ & Hall & Hval).
    destruct IH as [IH1 IH2]; [intros n v Hin; apply Hvalid; now right|].
    split.
    + rewrite splitLines_joinLines.
      * rewrite map_map. reflexivity.
      * rewrite forallb_map in *. simpl. apply andb_true_iff. split.
        -- unfold outputLine, noLineBreak. simpl. rewrite !forallb_app.
           apply andb_true_iff. split.
           ++ rewrite forallb_forall in *. intros c Hc.
              now apply nameChar_no_break, Hall.
           ++ destruct Hval as [-> | ->]; reflexivity.
        -- rewrite <- forallb_map with (f := fun o : output => (outputLine o, false))
                                       (g := fun l => noLineBreak (fst l)).
           destruct (forallb (fun l => noLineBreak (fst l))
                             (map (fun o : output => (outputLine o, false)) outs)) eqn:E;
             [reflexivity|].
           exfalso. rewrite splitLines_joinLines in IH1.
           ++ rewrite forallb_map in E.
              assert (forallb (fun a : output => noLineBreak (outputLine a)) outs = true)
                as Hall'.
              { rewrite forallb_forall. intros [n v] Hin.
                destruct (Hvalid n v (or_intror Hin)) as (_ & Hn & Hv).
                unfold outputLine, noLineBreak. simpl. rewrite !forallb_app.
                apply andb_true_iff. split.
                - rewrite forallb_forall in *. intros c Hc.
                  now apply nameChar_no_break, Hn.
                - destruct Hv as [-> | ->]; reflexivity. }
              simpl in E. congruence.
           ++ rewrite forallb_map. rewrite forallb_forall. intros [n v] Hin.
              destruct (Hvalid n v (or_intror Hin)) as (_ & Hn & Hv).
              unfold outputLine, noLineBreak. simpl. rewrite !forallb_app.
              apply andb_true_iff. split.
              ** rewrite forallb_forall in *. intros c Hc.
                 now apply nameChar_no_break, Hn.
              ** destruct Hv as [-> | ->]; reflexivity.
    + simpl map. rewrite IH2. f_equal.
      unfold beforeEquals, outputLine. simpl fst. simpl snd.
      change (name ++ str "=" ++ value) with (name ++ ch "=" :: value).
      apply takeWhile_app; [|reflexivity].
      rewrite forallb_forall in *. intros c Hc.
      now rewrite (nameChar_not_equals c (Hall c Hc)).
Qed.

Lemma output_file_has_one_line_per_filter_witness :
  splitLines
    (appended (str "/tmp/out")
       (outputEffects scheduledRun
          (fst (main (Some (text ["docs:"%string; "  - 'docs/**'"%string; "code:"%string]))
                     [str "docs/a.md"]))))
  = [str "docs=true"; str "code=true"; []].
Proof.
  refine (eq_trans
            (proj1 (output_file_has_one_line_per_filter scheduledRun (str "/tmp/out")
                      (Some (text ["docs:"%string; "  - 'docs/**'"%string; "code:"%string]))
                      [str "docs/a.md"] eq_refl eq_refl)) _).
  vm_compute. reflexivity.
Defined.

(** ** Quotes *)

Lemma parseLine_item st line g :
  line <> [] ->
  filterMatch line = None ->
  itemMatch line = Some g ->
  trim line = line ->
  parseLine st line = pushPattern st (stripQuotes (trim g)).
Proof.
  intros Hne Hf Hi Ht. unfold parseLine, pushPattern. rewrite Ht.
  destruct line as [|c l]; [congruence|]. rewrite Hf, Hi. reflexivity.
Qed.

Lemma dashLine st g d :
  noLineTerminator g = true -> isWhiteSpace (hd d g) = false ->
  isWhiteSpace d = false ->
  parseLine st (str "- " ++ g ++ [d]) = pushPattern st (stripQuotes (trim (g ++ [d]))).
Proof.
  intros Hg Hhd Hd.
  assert (isWhiteSpace (hd d (g ++ [d])) = false) as Hfirst
    by (destruct g; assumption).
  apply parseLine_item.
  - discriminate.
  - reflexivity.
  - change (str "- " ++ g ++ [d]) with (ch "-" :: ch " " :: (g ++ [d])).
    unfold itemMatch. change (ch "-" =? ch "-") with true. cbv iota.
    unfold afterDash; fold afterDash.
    change (isWhiteSpace (ch " ")) with true. cbv iota.
    pose proof (lazyGroup_whole g d Hg Hd) as E.
    destruct (g ++ [d]) as [|c l] eqn:Eg; [discriminate|].
    unfold afterDash; fold afterDash. simpl in Hfirst. rewrite Hfirst.
    now rewrite E.
  - change (str "- " ++ g ++ [d]) with (ch "-" :: (ch " " :: g) ++ [d]).
    now apply trim_core.
Qed.

Lemma last_snoc {A} (l : list A) (x y : A) : last (l ++ [x]) y = x.
Proof.
  induction l as [|a l IH]; [reflexivity|].
  simpl. destruct (l ++ [x]) eqn:E; [now destruct l | exact IH].
Qed.

Lemma snoc_cases {A} (l : list A) : l = [] \/ exists g d, l = g ++ [d].
Proof.
  induction l as [|a l IH] using rev_ind; [now left | right; eauto].
Qed.

(** X24. Quotes are optional.  A pattern that is not empty, lies on one
    line, has no white space at either end and is not itself wrapped in
    quotes gives the same pattern line whether it is written bare, in
    single quotes or in double quotes. *)
Theorem quotes_are_optional st pat :
  plainPattern pat = true ->
  parseLine st (str "- " ++ pat) = pushPattern st pat
  /\ parseLine st (str "- '" ++ pat ++ str "'") = pushPattern st pat
  /\ parseLine st (str "- " ++ [34] ++ pat ++ [34]) = pushPattern st pat.
Proof.
  unfold plainPattern. rewrite !andb_true_iff, !negb_true_iff.
  intros (((((Hne & Hlt) & Hhd) & Hlast) & Hq1) & Hq2).
  split; [|split].
  - destruct (snoc_cases pat) as [-> | (g & d & ->)]; [discriminate|].
    rewrite last_snoc in Hlast.
    unfold noLineTerminator in Hlt. rewrite forallb_app in Hlt.
    apply andb_true_iff in Hlt as [Hg _].
    assert (isWhiteSpace (hd d g) = false) as Hhd'.
    { destruct g; [exact Hlast | exact Hhd]. }
    rewrite (dashLine st g d Hg Hhd' Hlast). f_equal.
    assert (trim (g ++ [d]) = g ++ [d]) as ->.
    { destruct g as [|c g]; [|now apply trim_core].
      unfold trim. simpl. rewrite Hlast. unfold trimEnd. simpl. now rewrite Hlast. }
    unfold stripQuotes. now rewrite Hq1, Hq2.
  - change (str "- '" ++ pat ++ str "'") with (str "- " ++ (ch "'" :: pat) ++ [ch "'"]).
    rewrite dashLine; [|simpl; now rewrite Hlt|reflexivity|reflexivity].
    f_equal. exact (quoted_stripQuotes pat).
  - change (str "- " ++ [34] ++ pat ++ [34]) with (str "- " ++ (34 :: pat) ++ [34]).
    rewrite dashLine; [|simpl; now rewrite Hlt|reflexivity|reflexivity].
    f_equal. change ((34 :: pat) ++ [34]) with (34 :: pat ++ [34]).
    rewrite trim_core by reflexivity.
    unfold stripQuotes, endsWith. simpl rev. rewrite rev_app_distr. simpl.
    unfold slice1m1. simpl tl. apply removelast_last.
Qed.

Lemma quotes_are_optional_witness :
  parseLine {| result := [(str "docs", [])]; current := Some (str "docs") |}
            (str "- " ++ str "docs/**")
  = parseLine {| result := [(str "docs", [])]; current := Some (str "docs") |}
              (str "- '" ++ str "docs/**" ++ str "'").
Proof.
  destruct (quotes_are_optional
              {| result := [(str "docs", [])]; current := Some (str "docs") |}
              (str "docs/**") eq_refl) as (H1 & H2 & _).
  exact (eq_trans H1 (eq_sym H2)).
Defined.
